(** * AirSecAnalyzer: the fuzzing engine, the mode orchestrator and the recorder

    A shallow embedding of [SatTest/SatTest.py] and of the command loop of
    [GNURadio/recording.py], with the properties of the specification that
    concern them.

    Conventions of the embedding.
    - A Python [bytes] or [bytearray] value is a [list Z]; every element of a
      real buffer lies in [0, 256), and a write of any other value into a
      [bytearray] raises [ValueError], as in CPython.
    - A Python [str] is the list of its code points.
    - A Python exception is a constructor of [exn]; a computation that may
      raise has type [result A].
    - The [random] module is an interface ([RandomSource]) whose state is
      threaded explicitly.
    - Sockets and child processes belong to the environment: what the program
      does to them is recorded as a list of events, what they answer is an
      argument of the function. *)

From Stdlib Require Import ZArith Lia Bool Ascii String DecimalString.
From stdpp Require Import base decidable list numbers strings gmap.

Local Open Scope Z_scope.

(* ===================================================================== *)
(** ** The Python run time                                                *)
(* ===================================================================== *)

Module Py.

(** [bytes] and [str]. *)
Abbreviation bytes := (list Z) (only parsing).
Abbreviation str := (list Z) (only parsing).

(** A literal of the source, as code points. The literals of these scripts
    are ASCII, so the same numbers are their UTF-8 bytes. *)
Definition lit (s : string) : list Z :=
  List.map (fun c => Z.of_N (N_of_ascii c)) (list_ascii_of_string s).

Inductive exn : Type :=
| ValueError
| IndexError
| UnicodeDecodeError
| UnicodeEncodeError
| ConnectionRefusedError
| AttributeError
| OverflowError
| RuntimeError (msg : str).

Inductive result (A : Type) : Type :=
| Ok (a : A)
| Raise (e : exn).
Arguments Ok {A} a.
Arguments Raise {A} e.

Definition bind {A B} (m : result A) (k : A -> result B) : result B :=
  match m with
  | Ok a => k a
  | Raise e => Raise e
  end.

Definition raises {A} (m : result A) : Prop := exists e, m = Raise e.

(** [for i in range(start, start + count): s = body(i, s)], stopping at the
    first exception. *)
Fixpoint for_range {St} (body : nat -> St -> result St)
         (start count : nat) (s : St) : result St :=
  match count with
  | O => Ok s
  | S c => bind (body start s) (for_range body (S start) c)
  end.

(** [l[a:b]] for [0 <= a]: Python clamps both ends to the length. *)
Definition slice (l : list Z) (a b : nat) : list Z := take (b - a) (drop a l).

Definition is_byte (v : Z) : bool := (0 <=? v) && (v <? 256).

(** [b[i]] on a bytearray, [0 <= i]. *)
Definition bytearray_get (b : bytes) (i : nat) : result Z :=
  match b !! i with
  | Some x => Ok x
  | None => Raise IndexError
  end.

(** [b[i] = v] on a bytearray, [0 <= i]: the index must exist and the value
    must be a byte. *)
Definition bytearray_set (b : bytes) (i : nat) (v : Z) : result bytes :=
  if bool_decide (i < length b)%nat then
    if is_byte v then Ok (<[i := v]> b) else Raise ValueError
  else Raise IndexError.

(** [hay.startswith(sub)] as a test on the front of a list. *)
Definition starts_with (sub hay : list Z) : bool :=
  bool_decide (take (length sub) hay = sub).

(** The scan of [bytes.count] for a non-empty [sub]: occurrences are counted
    from the left and, after a match, the scan resumes behind it, so the
    counted occurrences never overlap. [skip] is the number of positions
    still covered by the last match. *)
Fixpoint count_scan (sub hay : list Z) (skip : nat) : nat :=
  match hay with
  | [] => O
  | _ :: tl =>
      match skip with
      | S k => count_scan sub tl k
      | O => if starts_with sub hay
             then S (count_scan sub tl (length sub - 1))
             else count_scan sub tl 0
      end
  end.

(** [hay.count(sub)]; the empty [sub] is found between all bytes. *)
Definition bytes_count (hay sub : list Z) : nat :=
  match sub with
  | [] => S (length hay)
  | _ => count_scan sub hay 0
  end.

(** *** UTF-8 *)

Definition is_cont (b : Z) : bool := (128 <=? b) && (b <=? 191).
Definition in_range (lo hi b : Z) : bool := (lo <=? b) && (b <=? hi).

(** [b.decode("utf-8")] with the default strict error handler: shortest
    form only, no surrogates, nothing above U+10FFFF. [None] stands for
    the [UnicodeDecodeError]. *)
Fixpoint utf8_decode (b : bytes) : option str :=
  match b with
  | [] => Some []
  | b0 :: r0 =>
      if in_range 0 127 b0 then cons b0 <$> utf8_decode r0
      else match r0 with
      | [] => None
      | b1 :: r1 =>
          if in_range 194 223 b0 then
            if is_cont b1
            then cons ((b0 - 192) * 64 + (b1 - 128)) <$> utf8_decode r1
            else None
          else match r1 with
          | [] => None
          | b2 :: r2 =>
              if in_range 224 239 b0 then
                if in_range (if b0 =? 224 then 160 else 128)
                            (if b0 =? 237 then 159 else 191) b1
                   && is_cont b2
                then cons ((b0 - 224) * 4096 + (b1 - 128) * 64 + (b2 - 128))
                       <$> utf8_decode r2
                else None
              else match r2 with
              | [] => None
              | b3 :: r3 =>
                  if in_range 240 244 b0
                     && in_range (if b0 =? 240 then 144 else 128)
                                 (if b0 =? 244 then 143 else 191) b1
                     && is_cont b2 && is_cont b3
                  then cons ((b0 - 240) * 262144 + (b1 - 128) * 4096
                             + (b2 - 128) * 64 + (b3 - 128))
                         <$> utf8_decode r3
                  else None
              end
          end
      end
  end.

Definition decode (b : bytes) : result str :=
  match utf8_decode b with
  | Some s => Ok s
  | None => Raise UnicodeDecodeError
  end.

(** The UTF-8 bytes of one code point; a surrogate has none. *)
Definition utf8_encode_cp (c : Z) : option bytes :=
  if c <? 0 then None
  else if c <? 128 then Some [c]
  else if c <? 2048 then Some [192 + c / 64; 128 + c mod 64]
  else if c <? 65536 then
    if in_range 55296 57343 c then None
    else Some [224 + c / 4096; 128 + (c / 64) mod 64; 128 + c mod 64]
  else if c <? 1114112 then
    Some [240 + c / 262144; 128 + (c / 4096) mod 64;
          128 + (c / 64) mod 64; 128 + c mod 64]
  else None.

Fixpoint utf8_encode (s : str) : option bytes :=
  match s with
  | [] => Some []
  | c :: r =>
      match utf8_encode_cp c, utf8_encode r with
      | Some bc, Some br => Some (bc ++ br)
      | _, _ => None
      end
  end.

(** [s.encode("utf-8")]. *)
Definition encode (s : str) : result bytes :=
  match utf8_encode s with
  | Some b => Ok b
  | None => Raise UnicodeEncodeError
  end.

(** [c.isspace()] for one code point. *)
Definition isspace (c : Z) : bool :=
  in_range 9 13 c || in_range 28 32 c || (c =? 133) || (c =? 160)
  || (c =? 5760) || in_range 8192 8202 c || (c =? 8232) || (c =? 8233)
  || (c =? 8239) || (c =? 8287) || (c =? 12288).

Fixpoint lstrip (s : str) : str :=
  match s with
  | c :: r => if isspace c then lstrip r else s
  | [] => []
  end.

(** [s.strip()]. *)
Definition strip (s : str) : str := rev (lstrip (rev (lstrip s))).

(** [str(n)] for an [int]. *)
Definition str_of_int (n : Z) : str := lit (NilZero.string_of_int (Z.to_int n)).

(** [print(a, b)]: the arguments separated by a space, then a newline. *)
Definition print2 (a b : str) : str := a ++ [32] ++ b ++ [10].
Definition print1 (a : str) : str := a ++ [10].

(** *** The random module

    [rs_random] is one call of [random.random()], which returns [k / 2^53];
    the model keeps the numerator [k]. [rs_randbelow n] is the generator's
    [_randbelow(n)], on which [randint] and [choice] are built. *)
Class RandomSource (G : Type) : Type := {
  rs_random : G -> Z * G;
  rs_randbelow : Z -> G -> Z * G;
  rs_random_range : forall g, 0 <= (rs_random g).1 < 2 ^ 53;
  rs_randbelow_range : forall n g, 0 < n -> 0 <= (rs_randbelow n g).1 < n
}.

(** [random.randint(a, b)] is [a + _randbelow(b - a + 1)]. *)
Definition randint `{RandomSource G} (a b : Z) (g : G) : Z * G :=
  let '(r, g') := rs_randbelow (b - a + 1) g in (a + r, g').

(** [random.choice(seq)] is [seq[_randbelow(len(seq))]]; [d] only fills the
    type for an index that the generator never produces. *)
Definition choice `{RandomSource G} (d : Z) (l : list Z) (g : G) : Z * G :=
  let '(r, g') := rs_randbelow (Z.of_nat (length l)) g in
  (nth (Z.to_nat r) l d, g').

(** [random.random() < 0.05]: the double nearest to 0.05 is
    3602879701896397 / 2^56, and [k / 2^53] is below it exactly when
    [8 * k] is below that numerator. *)
Definition random_below_5_percent `{RandomSource G} (g : G) : bool * G :=
  let '(k, g') := rs_random g in (8 * k <? 3602879701896397, g').

(** A linear congruential generator, used to run the functions. *)
Definition lcg_next (g : Z) : Z := (g * 1103515245 + 12345) mod 2147483648.

#[export] Program Instance lcg : RandomSource Z := {|
  rs_random g := ((g * 4194304) mod 2 ^ 53, lcg_next g);
  rs_randbelow n g := (g mod n, lcg_next g)
|}.
Next Obligation. intros g. simpl. apply Z.mod_pos_bound. lia. Qed.
Next Obligation. intros n g Hn. simpl. apply Z.mod_pos_bound. lia. Qed.

End Py.

Import Py.

Notation "'let*' x ':=' c1 'in' c2" := (Py.bind c1 (fun x => c2))
  (at level 10, x name, c1 at level 100, c2 at level 200).

(* ===================================================================== *)
(** ** SatTest/SatTest.py                                                 *)
(* ===================================================================== *)

Module SatTest.

(** The value that [build_common_values_from_file] returns and that
    [heuristic_fuzz] receives: the initial [""] (a [str]) when nothing
    was found, a slice of the file otherwise. *)
Inductive common : Type :=
| EmptyStr
| Bytes (segment : bytes).

(** [len(common_value)]. *)
Definition common_len (c : common) : nat :=
  match c with
  | EmptyStr => O
  | Bytes segment => length segment
  end.

(** The bytes of a common value. *)
Definition common_bytes (c : common) : bytes :=
  match c with
  | EmptyStr => []
  | Bytes segment => segment
  end.

(** The body of the inner loop of [build_common_values_from_file]. *)
Definition candidate (data : bytes) (length start : nat) (longest : common)
  : common :=
  let segment := slice data start (start + length) in
  let count := bytes_count data segment in
  if bool_decide (1 < count)%nat
     && bool_decide (common_len longest < List.length segment)%nat
  then Bytes segment
  else longest.

(** [for start in range(n - length)]. *)
Definition scan_starts (data : bytes) (longest : common) (length : nat)
  : common :=
  fold_left (fun longest start => candidate data length start longest)
            (seq 0 (List.length data - length)) longest.

(** [build_common_values_from_file]; [data] is what [f.read()] returned. *)
Definition build_common_values_from_file (data : bytes) : common :=
  let n := length data in
  fold_left (scan_starts data) (seq 1 (n - 1)) EmptyStr.

(** [random_fuzz]. *)
Definition random_fuzz `{RandomSource G} (data : bytes) (g : G)
  : result (bytes * G) :=
  for_range
    (fun i '(fuzzed_data, g) =>
       let '(hit, g) := random_below_5_percent g in
       if hit then
         let '(v, g) := randint 0 255 g in
         let* fuzzed_data := bytearray_set fuzzed_data i v in
         Ok (fuzzed_data, g)
       else Ok (fuzzed_data, g))
    0 (length data) (data, g).

(** What [check_protocol] returns: ["DVB-S2"], ["CCSDS"], or [None]
    (the specification's [Unknown]). *)
Inductive protocol : Type := DVB_S2 | CCSDS.

(** [check_protocol]. *)
Definition check_protocol (data : bytes) : option protocol :=
  if bool_decide (10 <= length data)%nat then
    if bool_decide (data !! 0%nat = Some 0x47) then Some DVB_S2
    else if bool_decide (slice data 0 3 = [0x1A; 0xCF; 0xFC]) then Some CCSDS
    else None
  else None.

(** [fuzzed_data[i:i + common_value_len] == common_value]: a bytearray
    never equals a [str]. *)
Definition window_matches (window : bytes) (common_value : common) : bool :=
  match common_value with
  | EmptyStr => false
  | Bytes segment => bool_decide (window = segment)
  end.

(** [for j in range(common_value_len): fuzzed_data[i + j] ^= 0xFF]. *)
Definition xor_window (i common_value_len : nat) (fuzzed_data : bytes)
  : result bytes :=
  for_range
    (fun j fuzzed_data =>
       let* x := bytearray_get fuzzed_data (i + j) in
       bytearray_set fuzzed_data (i + j) (Z.lxor x 0xFF))
    0 common_value_len fuzzed_data.

(** The first loop of [heuristic_fuzz]; every test reads the buffer as the
    earlier iterations left it. *)
Definition xor_pass (data : bytes) (common_value : common) : result bytes :=
  let common_value_len := common_len common_value in
  for_range
    (fun i fuzzed_data =>
       if window_matches (slice fuzzed_data i (i + common_value_len))
                         common_value
       then xor_window i common_value_len fuzzed_data
       else Ok fuzzed_data)
    0 (length data + 1 - common_value_len) data.

(** [heuristic_fuzz]. In [random.choice([True, False])] the booleans are
    the integers 1 and 0. *)
Definition heuristic_fuzz `{RandomSource G} (data : bytes)
           (common_value : common) (g : G) : result (bytes * G) :=
  let* fuzzed_data := xor_pass data common_value in
  match check_protocol fuzzed_data with
  | Some DVB_S2 =>
      let '(v, g) := randint 0 15 g in
      let* fuzzed_data := bytearray_set fuzzed_data 1 v in
      let '(v, g) := choice 0 [0; 1] g in
      let* fuzzed_data := bytearray_set fuzzed_data 2 v in
      let '(v, g) := randint 20 35 g in
      let* fuzzed_data := bytearray_set fuzzed_data 3 v in
      let '(v, g) := choice 0 [16200; 64800] g in
      let* fuzzed_data := bytearray_set fuzzed_data 4 v in
      Ok (fuzzed_data, g)
  | Some CCSDS =>
      let '(v, g) := randint 1 255 g in
      let* fuzzed_data := bytearray_set fuzzed_data 1 v in
      let '(v, g) := randint 0 7 g in
      let* fuzzed_data := bytearray_set fuzzed_data 2 v in
      let '(v, g) := randint 1 10 g in
      let* fuzzed_data := bytearray_set fuzzed_data 3 v in
      let '(v, g) := choice 0 [1; 0] g in
      let* fuzzed_data := bytearray_set fuzzed_data 4 v in
      Ok (fuzzed_data, g)
  | None => Ok (fuzzed_data, g)
  end.

(** What a client socket is asked to do. *)
Inductive net_event : Type :=
| Connect (host : str) (port : Z)
| Send (payload : bytes)
| Close.

(** [send_signal_params_to_generation]. [listening port] tells whether a
    server accepts connections on that loopback port; the result is the
    list of socket operations done and how the call ended. *)
Definition send_signal_params_to_generation (listening : Z -> bool)
           (freq power bandwidth : str) : list net_event * result unit :=
  if listening 6789 then
    let params := lit "freq=" ++ freq ++ lit ";power=" ++ power
                  ++ lit ";bandwidth=" ++ bandwidth in
    match encode params with
    | Ok payload =>
        ([Connect (lit "127.0.0.1") 6789; Send payload; Close], Ok tt)
    | Raise e => ([Connect (lit "127.0.0.1") 6789], Raise e)
    end
  else ([], Raise ConnectionRefusedError).

(** The attributes of the parsed command line that the SignalJamming
    branch reads; an option that was not given is [None]. *)
Record Namespace : Type := {
  freq : option str;
  power : option str;
  bandwidth : option str
}.

(** [v if v else d]: [None] and the empty string are both false. *)
Definition if_else (v : option str) (d : str) : str :=
  match v with
  | Some (c :: s) => c :: s
  | _ => d
  end.

(** The branch [elif args.mode == "SignalJamming":]. *)
Definition SignalJamming (listening : Z -> bool) (args : Namespace)
  : list net_event * result unit :=
  let freq := if_else (freq args) (lit "2.4G") in
  let power := if_else (power args) (lit "30") in
  let bandwidth := if_else (bandwidth args) (lit "10M") in
  send_signal_params_to_generation listening freq power bandwidth.

Section Processes.

(** Python floats and their [str()]. *)
Variable float : Type.
Variable float_str : float -> str.

(** [subprocess.Popen(cmd, ...).communicate()]: what the child wrote to
    its standard output and to its standard error. *)
Variable communicate : list str -> bytes * bytes.

(** The command line of the GNSS simulator. *)
Definition gnss_cmd (lat lon altitude : float) (time : Z) : list str :=
  let default_nav_file := lit "brdc3540.14n" in
  [lit "gps-sdr-sim";
   lit "-e"; default_nav_file;
   lit "-l"; float_str lat ++ lit "," ++ float_str lon ++ lit ","
             ++ float_str altitude;
   lit "-t"; str_of_int time;
   lit "-s"; lit "pluto"].

(** [generate_and_send_gnss_signal]; a normal return carries what was
    printed. *)
Definition generate_and_send_gnss_signal (lat lon altitude : float)
           (time : Z) : result str :=
  let cmd := gnss_cmd lat lon altitude time in
  let '(output, error) := communicate cmd in
  if bool_decide (error <> []) then
    let* text := decode error in
    Raise (RuntimeError (lit "Error in GPS-SDR-SIM: " ++ text))
  else
    let* text := decode output in
    Ok (print2 (lit "GNSS Signal Generation Output:") text).

(** The command line of a GNU Radio script: an absent and an empty
    argument list are both false. *)
Definition script_cmd (script : str) (args : option (list str))
  : list str :=
  match args with
  | Some (a :: l) => [lit "python3"; script] ++ a :: l
  | _ => [lit "python3"; script]
  end.

(** [run_gnuradio_script]; a normal return carries what was printed. *)
Definition run_gnuradio_script (script : str) (args : option (list str))
  : result str :=
  let cmd := script_cmd script args in
  let '(output, error) := communicate cmd in
  if bool_decide (error <> []) then
    let* text := decode error in
    Ok (print2 (lit "Error:") text)
  else
    let* text := decode output in
    Ok (print2 (lit "Output:") text).

End Processes.

End SatTest.

(* ===================================================================== *)
(** ** GNURadio/recording.py                                              *)
(* ===================================================================== *)

Module Recording.

(** A [blocks.file_sink] object: which one it is, the file it writes and
    its buffering flag. *)
Record file_sink_block : Type := {
  sink_id : nat;
  sink_file : str;
  sink_unbuffered : bool
}.

#[export] Instance file_sink_block_eq_dec : EqDecision file_sink_block.
Proof. solve_decision. Defined.

(** The fields of a [SignalRecorder] that its methods touch:
    [self.file_sink]; the sinks currently connected to output 0 of
    [self.pluto_source]; the number of sinks created so far; the text
    printed so far. *)
Record SignalRecorder : Type := {
  file_sink : option file_sink_block;
  connected : list file_sink_block;
  created : nat;
  stdout : str
}.

(** The recorder is recording when it holds a file sink. *)
Definition recording (self : SignalRecorder) : bool :=
  bool_decide (file_sink self <> None).

(** [start_recording]. *)
Definition start_recording (self : SignalRecorder) : SignalRecorder :=
  let sink := {| sink_id := created self;
                 sink_file := lit "recorded_signal.dat";
                 sink_unbuffered := false |} in
  let sink := {| sink_id := sink_id sink;
                 sink_file := sink_file sink;
                 sink_unbuffered := true |} in
  {| file_sink := Some sink;
     connected := connected self ++ [sink];
     created := S (created self);
     stdout := stdout self ++ print1 (lit "Recording started.") |}.

(** [stop_recording]. *)
Definition stop_recording (self : SignalRecorder) : SignalRecorder :=
  match file_sink self with
  | Some sink =>
      {| file_sink := None;
         connected := List.filter (fun s => bool_decide (s <> sink))
                                  (connected self);
         created := created self;
         stdout := stdout self ++ print1 (lit "Recording stopped.") |}
  | None => self
  end.

(** An accepted connection: which one it is and what the peer sent. *)
Record connection : Type := {
  conn_id : nat;
  sent : bytes
}.

(** [conn.recv(1024)]. *)
Definition recv (conn : connection) : bytes := take 1024 (sent conn).

(** The recorder together with the connections its loop has closed. *)
Record world : Type := {
  recorder : SignalRecorder;
  closed : list nat
}.

(** One round of the loop of [listen_for_commands], for the connection
    that [accept] returned. *)
Definition serve (conn : connection) (w : world) : result world :=
  let* text := decode (recv conn) in
  let command := strip text in
  let self :=
    if bool_decide (command = lit "START") then start_recording (recorder w)
    else if bool_decide (command = lit "STOP") then stop_recording (recorder w)
    else recorder w in
  Ok {| recorder := self; closed := closed w ++ [conn_id conn] |}.

(** [listen_for_commands] over the connections accepted so far, in the
    order of their arrival. An exception ends the loop. *)
Fixpoint listen_for_commands (incoming : list connection) (w : world)
  : result world :=
  match incoming with
  | [] => Ok w
  | conn :: rest => let* w := serve conn w in listen_for_commands rest w
  end.

End Recording.

(* ===================================================================== *)
(** ** The vocabulary of the properties                                   *)
(* ===================================================================== *)

Module Contract.

Import SatTest Recording.

(** The three sync bytes at the front of a buffer. *)
Definition ccsds_marker : bytes := [0x1A; 0xCF; 0xFC].

(** The frame of the specification's end-to-end scenario: 0x47 and nine
    zero bytes. *)
Definition dvbs2_frame : bytes := [0x47; 0; 0; 0; 0; 0; 0; 0; 0; 0].

Section Occurrences.

Local Open Scope nat_scope.

(** [s] is found in [data] at offset [p]. *)
Definition occurs_at (data s : bytes) (p : nat) : Prop :=
  take (length s) (drop p data) = s.

(** [s] occurs at two positions of [data], which may overlap. *)
Definition repeats (data s : bytes) : Prop :=
  exists p q, p < q /\ occurs_at data s p /\ occurs_at data s q.

(** [s] occurs at two positions of [data] that do not overlap. *)
Definition repeats_apart (data s : bytes) : Prop :=
  exists p q, p + length s <= q /\ occurs_at data s p /\ occurs_at data s q.

(** The contract of the miner for a notion [rep] of repetition: [r] is
    empty when no non-empty sequence repeats; otherwise [r] repeats, no
    repeating sequence is longer, and no repeating sequence of the same
    length is found in [data] before the first occurrence of [r]. *)
Definition longest_repeat (rep : bytes -> bytes -> Prop) (data r : bytes)
  : Prop :=
  (r = [] /\ forall s, s <> [] -> ~ rep data s)
  \/ (r <> [] /\ rep data r
      /\ (forall s, rep data s -> length s <= length r)
      /\ exists start,
          occurs_at data r start
          /\ forall s p, rep data s -> length s = length r ->
                         occurs_at data s p -> start <= p).

(** The test of the inner loop on the candidate of length [L] at offset
    [st]. *)
Definition accepted (data : bytes) (L st : nat) : Prop :=
  1 < bytes_count data (slice data st (st + L)).

#[export] Instance accepted_dec data L st : Decision (accepted data L st).
Proof. unfold accepted. apply _. Defined.

(** The candidates that the two loops enumerate. *)
Definition enumerated (data : bytes) (L st : nat) : Prop :=
  1 <= L /\ st + L < length data.

(** The candidates enumerated before the round [(k, j)]. *)
Definition before (data : bytes) (k j L st : nat) : Prop :=
  enumerated data L st /\ (L < k \/ (L = k /\ st < j)).

(** What [longest_common_substring] holds in front of a set [seen] of
    enumerated candidates: [""] if none of them was accepted, otherwise
    the first accepted candidate of the greatest accepted length. *)
Definition holds_best (data : bytes) (seen : nat -> nat -> Prop)
           (longest : common) : Prop :=
  (longest = EmptyStr /\ forall L st, seen L st -> ~ accepted data L st)
  \/ (exists L st,
         seen L st /\ enumerated data L st /\ accepted data L st
         /\ longest = Bytes (slice data st (st + L))
         /\ (forall st', st' < st -> seen L st' -> ~ accepted data L st')
         /\ (forall L' st', L < L' -> seen L' st' ->
                            ~ accepted data L' st')).

End Occurrences.

(** What C6 asks of a child process that wrote [output] and
    [error], whatever the command line: the GNSS call raises exactly when
    [error] is not empty and otherwise returns having printed the output;
    the generic call does not raise when [error] is not empty. *)
Definition stderr_contract (output error : bytes) : Prop :=
  let child := fun _ : list str => (output, error) in
  (forall (lat lon altitude : unit) (time : Z),
      let run := generate_and_send_gnss_signal unit (fun _ => lit "0.0")
                   child lat lon altitude time in
      (raises run <-> error <> [])
      /\ (error = [] -> exists printed, run = Ok printed))
  /\ (forall script args,
         error <> [] ->
         ~ raises (run_gnuradio_script child script args)).

(** A recorder that has just been constructed. *)
Definition fresh : world :=
  {| recorder := {| file_sink := None; connected := [];
                    created := 0; stdout := [] |};
     closed := [] |}.

End Contract.

(* ===================================================================== *)
(** ** GNURadio/SignalGeneration.py                                       *)
(* ===================================================================== *)

Module SignalGeneration.

(** [s.split(sep)] for a separator of one character: the pieces between
    the separators, empty pieces included. *)
Fixpoint split_on (sep : Z) (s : str) : list str :=
  match s with
  | [] => [[]]
  | c :: r =>
      if c =? sep then [] :: split_on sep r
      else match split_on sep r with
           | piece :: pieces => (c :: piece) :: pieces
           | [] => [[c]]
           end
  end.

(** The body of the loop of [receive_signal_params]:
    [key, value = item.split("="); params[key.strip()] = value.strip()].
    Unpacking anything but two pieces raises [ValueError]. *)
Definition store_item (item : str) (params : gmap (list Z) (list Z))
  : result (gmap (list Z) (list Z)) :=
  match split_on 61 item with
  | [key; value] => Ok (<[strip key := strip value]> params)
  | _ => Raise ValueError
  end.

(** [for item in items: ...]. *)
Fixpoint store_items (items : list str) (params : gmap (list Z) (list Z))
  : result (gmap (list Z) (list Z)) :=
  match items with
  | [] => Ok params
  | item :: rest =>
      let* params := store_item item params in store_items rest params
  end.

(** [receive_signal_params]; [sent] is what the accepted peer sent. *)
Definition receive_signal_params (sent : bytes)
  : result (gmap (list Z) (list Z)) :=
  let* data := decode (take 1024 sent) in
  store_items (split_on 59 (strip data)) ∅.

(** [params.get(key, fallback)]. *)
Definition get (params : gmap (list Z) (list Z)) (key fallback : str) : str :=
  default fallback (params !! key).

(** The three values that the main block hands to the flowgraph. *)
Definition settings (signal_params : gmap (list Z) (list Z))
  : str * str * str :=
  (get signal_params (lit "freq") (lit "2.4G"),
   get signal_params (lit "power") (lit "30"),
   get signal_params (lit "bandwidth") (lit "10M")).

End SignalGeneration.

(* ===================================================================== *)
(** ** GNURadio/Demodulation_decoding.py                                  *)
(* ===================================================================== *)

Module Demodulation.

(** [identify_modulation]; it reads only [len(signal)]. *)
Definition identify_modulation {A} (signal : list A) : str :=
  if (Z.of_nat (length signal) mod 2 =? 0) then lit "BPSK"
  else if (Z.of_nat (length signal) mod 3 =? 0) then lit "QPSK"
  else lit "8-PSK".

(** The arguments of [digital.psk.psk_demod]. *)
Record psk_demod : Type := {
  constellation_points : Z;
  differential : bool;
  samples_per_symbol : Z
}.

(** [get_demodulator]; the excess bandwidth, 0.35 in every branch, is left
    out of the record. *)
Definition get_demodulator (modulation : str) : result psk_demod :=
  if bool_decide (modulation = lit "BPSK") then
    Ok {| constellation_points := 2; differential := false;
          samples_per_symbol := 2 |}
  else if bool_decide (modulation = lit "QPSK") then
    Ok {| constellation_points := 4; differential := false;
          samples_per_symbol := 2 |}
  else if bool_decide (modulation = lit "8-PSK") then
    Ok {| constellation_points := 8; differential := false;
          samples_per_symbol := 2 |}
  else Raise ValueError.

End Demodulation.

(* ===================================================================== *)
(** ** SatTest/SatTest.py: the SignalReplay and SignalFuzzing branches    *)
(* ===================================================================== *)

Module Modes.

Import SatTest.

(** [send_command_to_recording], as [send_signal_params_to_generation]:
    the socket operations done and how the call ended. *)
Definition send_command_to_recording (listening : Z -> bool) (command : str)
  : list net_event * result unit :=
  if listening 5678 then
    match encode command with
    | Ok payload =>
        ([Connect (lit "127.0.0.1") 5678; Send payload; Close], Ok tt)
    | Raise e => ([Connect (lit "127.0.0.1") 5678], Raise e)
    end
  else ([], Raise ConnectionRefusedError).

(** [time.sleep(secs)] for an [int]: the exception it raises at once, if
    any. The length is first converted to nanoseconds in 64 bits, which
    fails with [OverflowError] beyond 9223372036 seconds either way; a
    negative length that converts raises [ValueError]. *)
Definition sleep (secs : Z) : option exn :=
  if (secs <? -9223372036) || (9223372036 <? secs) then Some OverflowError
  else if secs <? 0 then Some ValueError
  else None.

(** What the SignalReplay branch does, in order. *)
Inductive step : Type :=
| Net (e : net_event)
| Sleep (seconds : Z)
| Stdout (text : str).

(** The branch [if args.mode == "SignalReplay":]. *)
Definition SignalReplay (listening : Z -> bool)
           (communicate : list str -> bytes * bytes) (recordTime : Z)
  : list step * result unit :=
  let '(sent1, r1) := send_command_to_recording listening (lit "START") in
  match r1 with
  | Raise e => (Net <$> sent1, Raise e)
  | Ok _ =>
      match sleep recordTime with
      | Some e => (Net <$> sent1, Raise e)
      | None =>
        let '(sent2, r2) := send_command_to_recording listening (lit "STOP") in
        let done := (Net <$> sent1) ++ [Sleep recordTime] ++ (Net <$> sent2) in
        match r2 with
        | Raise e => (done, Raise e)
        | Ok _ =>
            match run_gnuradio_script communicate (lit "playback.py") None with
            | Ok text => (done ++ [Stdout text], Ok tt)
            | Raise e => (done, Raise e)
            end
        end
      end
  end.

(** The payloads of the [Send] operations among some steps, in order. *)
Definition payloads (steps : list step) : list bytes :=
  omap (fun s => match s with Net (Send payload) => Some payload | _ => None end)
       steps.

(** The two values of [--fuzzing]. *)
Inductive strategy : Type := random | heuristic.

(** The branch [elif args.mode == "SignalFuzzing":], from the bytes [sent]
    by the accepted peer: [data = conn.recv(1024)], the file written and
    read back, the chosen strategy, and the frame sent to port 4567. *)
Definition SignalFuzzing `{RandomSource G} (listening : Z -> bool)
           (fuzzing : strategy) (sent : bytes) (g : G)
  : list net_event * result unit :=
  let data := take 1024 sent in
  let flow_data := data in
  let common_value := build_common_values_from_file flow_data in
  let fuzzed :=
    match fuzzing with
    | random => random_fuzz data g
    | heuristic => heuristic_fuzz data common_value g
    end in
  match fuzzed with
  | Raise e => ([], Raise e)
  | Ok (fuzzed_data, _) =>
      if listening 4567 then
        ([Connect (lit "127.0.0.1") 4567; Send fuzzed_data; Close], Ok tt)
      else ([], Raise ConnectionRefusedError)
  end.

End Modes.

(* ===================================================================== *)
(** ** SatTest/SatTest.py: the statements of the script                   *)
(* ===================================================================== *)

Module Script.

Import SatTest.

Local Open Scope string_scope.

(** The attributes of an [argparse.ArgumentParser] object, as [dir] lists
    them; the class defines no [__getattr__]. *)
Definition ArgumentParser_attributes : list string :=
  ["__class__"; "__delattr__"; "__dict__"; "__dir__"; "__doc__"; "__eq__";
   "__format__"; "__ge__"; "__getattribute__"; "__getstate__"; "__gt__";
   "__hash__"; "__init__"; "__init_subclass__"; "__le__"; "__lt__";
   "__module__"; "__ne__"; "__new__"; "__reduce__"; "__reduce_ex__";
   "__repr__"; "__setattr__"; "__sizeof__"; "__str__"; "__subclasshook__";
   "__weakref__"; "_action_groups"; "_actions"; "_add_action";
   "_add_container_actions"; "_check_conflict"; "_check_value";
   "_defaults"; "_get_args"; "_get_formatter"; "_get_handler";
   "_get_kwargs"; "_get_nargs_pattern"; "_get_option_tuples";
   "_get_optional_actions"; "_get_optional_kwargs";
   "_get_positional_actions"; "_get_positional_kwargs"; "_get_value";
   "_get_values"; "_handle_conflict_error"; "_handle_conflict_resolve";
   "_has_negative_number_optionals"; "_match_argument";
   "_match_arguments_partial"; "_mutually_exclusive_groups";
   "_negative_number_matcher"; "_option_string_actions"; "_optionals";
   "_parse_known_args"; "_parse_optional"; "_pop_action_class";
   "_positionals"; "_print_message"; "_read_args_from_files";
   "_registries"; "_registry_get"; "_remove_action"; "_subparsers";
   "add_argument"; "add_argument_group"; "add_help";
   "add_mutually_exclusive_group"; "add_subparsers"; "allow_abbrev";
   "argument_default"; "conflict_handler"; "convert_arg_line_to_args";
   "description"; "epilog"; "error"; "exit"; "exit_on_error";
   "format_help"; "format_usage"; "formatter_class";
   "fromfile_prefix_chars"; "get_default"; "parse_args";
   "parse_intermixed_args"; "parse_known_args";
   "parse_known_intermixed_args"; "prefix_chars"; "print_help";
   "print_usage"; "prog"; "register"; "set_defaults"; "usage"].

(** [parser.name]: a name that the object does not have raises
    [AttributeError]. *)
Definition getattr (name : string) : result unit :=
  if bool_decide (name ∈ ArgumentParser_attributes) then Ok tt
  else Raise AttributeError.

Section Main.

(** What the lines 154 to 226 do with the command line once line 151 has
    returned: the rest of the parser's set-up, [parse_args] and the branch
    of the chosen mode, with the socket operations done and the way the
    script ended. *)
Variable rest : list (list Z) -> list net_event * result unit.

(** The statements of the script from line 143, run with the command line
    [argv]. Lines 145 and 148 call [parser.add_argument]; line 151 is
    [parser.add.argument(...)], which evaluates [parser.add] before
    anything else. *)
Definition main (argv : list (list Z)) : list net_event * result unit :=
  match getattr "add_argument" with
  | Raise e => ([], Raise e)
  | Ok _ =>
      match getattr "add_argument" with
      | Raise e => ([], Raise e)
      | Ok _ =>
          match getattr "add" with
          | Raise e => ([], Raise e)
          | Ok _ => rest argv
          end
      end
  end.

End Main.

End Script.

(* ===================================================================== *)
(** ** More vocabulary                                                    *)
(* ===================================================================== *)

Module Terms.

Import Recording.

(** A buffer of bytes. *)
Definition all_bytes (data : bytes) : Prop :=
  Forall (fun x => 0 <= x < 256) data.

(** What the first loop of [heuristic_fuzz] keeps, on a buffer of bytes:
    the length, and at every offset the original byte or its complement. *)
Definition complemented (data b : bytes) : Prop :=
  length b = length data
  /\ forall i x, data !! i = Some x ->
                 b !! i = Some x \/ b !! i = Some (255 - x).

(** A text without surrounding white space, without [;] and without [=]:
    a value that the parameter message can carry. *)
Definition plain (s : str) : Prop :=
  strip s = s /\ (59 ∉ s) /\ (61 ∉ s).

(** The number of [=] in an item of the parameter message. *)
Definition equals_count (item : str) : nat :=
  length (filter (fun c => c = 61) item).

(** The command carried by a connection, when its payload is UTF-8. *)
Definition command_of (conn : connection) : option str :=
  strip <$> utf8_decode (recv conn).


(** The status of a two-state machine, idle ([false]) or recording
    ([true]), after one command. *)
Definition switch (status : bool) (command : option str) : bool :=
  if bool_decide (command = Some (lit "START")) then true
  else if bool_decide (command = Some (lit "STOP")) then false
  else status.

(** The invariant of a recorder: the sink it holds is connected, every
    connected sink was created by it, and no sink is connected twice. *)
Definition well_formed (self : SignalRecorder) : Prop :=
  (forall s, file_sink self = Some s -> s ∈ connected self)
  /\ (forall s, s ∈ connected self -> (sink_id s < created self)%nat)
  /\ NoDup (connected self).

(** ASCII white space: tab, line feed, vertical tab, form feed, carriage
    return and space. *)
Definition ascii_space (c : Z) : Prop := 9 <= c <= 13 \/ c = 32.

End Terms.

(* ===================================================================== *)
(** ** Facts about the run time                                           *)
(* ===================================================================== *)

Module PyFacts.

Lemma bind_Ok {A B} (m : result A) (k : A -> result B) (b : B) :
  Py.bind m k = Ok b -> exists a, m = Ok a /\ k a = Ok b.
Proof. destruct m as [a|e]; simpl; [eauto | discriminate]. Qed.

(** A loop whose body keeps an invariant and never raises under it
    returns, and the invariant holds at the end. *)
Lemma for_range_total {St} (P : St -> Prop) (body : nat -> St -> result St) :
  forall count start s,
    P s ->
    (forall i s, (start <= i < start + count)%nat -> P s ->
                 exists s', body i s = Ok s' /\ P s') ->
    exists s', for_range body start count s = Ok s' /\ P s'.
Proof.
  induction count as [|c IH]; intros start s Hs Hbody; simpl.
  - eauto.
  - destruct (Hbody start s) as (s1 & -> & Hs1); [lia | done |].
    simpl. apply IH; [done |]. intros i t Hi Ht. apply Hbody; [lia | done].
Qed.

(** Whatever a loop returns satisfies an invariant that every returning
    round of the body keeps. *)
Lemma for_range_partial {St} (P : St -> Prop) (body : nat -> St -> result St) :
  forall count start s s',
    P s ->
    (forall i s s', (start <= i < start + count)%nat -> P s ->
                    body i s = Ok s' -> P s') ->
    for_range body start count s = Ok s' -> P s'.
Proof.
  induction count as [|c IH]; intros start s s' Hs Hbody; simpl.
  - intros [= <-]. done.
  - intros (s1 & H1 & Hrest)%bind_Ok.
    eapply (IH (S start) s1); [| | exact Hrest].
    + eapply Hbody; [| exact Hs | exact H1]. lia.
    + intros i t t' Hi Ht. apply Hbody; [lia | done].
Qed.

Lemma is_byte_spec v : is_byte v = true <-> 0 <= v < 256.
Proof. unfold is_byte. rewrite andb_true_iff, Z.leb_le, Z.ltb_lt. done. Qed.

Lemma bytearray_set_Ok (b : bytes) i v :
  (i < length b)%nat -> 0 <= v < 256 ->
  bytearray_set b i v = Ok (<[i := v]> b).
Proof.
  intros Hi Hv. unfold bytearray_set.
  rewrite bool_decide_eq_true_2 by done.
  apply is_byte_spec in Hv. by rewrite Hv.
Qed.

Lemma bytearray_set_ValueError (b : bytes) i v :
  (i < length b)%nat -> ~ (0 <= v < 256) ->
  bytearray_set b i v = Raise ValueError.
Proof.
  intros Hi Hv. unfold bytearray_set.
  rewrite bool_decide_eq_true_2 by done.
  destruct (is_byte v) eqn:E; [| done].
  apply is_byte_spec in E. done.
Qed.

Lemma bytearray_set_length (b b' : bytes) i v :
  bytearray_set b i v = Ok b' -> length b' = length b.
Proof.
  unfold bytearray_set. repeat case_match; try discriminate.
  intros [= <-]. apply length_insert.
Qed.

Lemma randint_range `{RandomSource G} (a b : Z) (g : G) :
  a <= b -> a <= (randint a b g).1 <= b.
Proof.
  intros Hab. unfold randint.
  pose proof (rs_randbelow_range (b - a + 1) g) as Hr.
  destruct (rs_randbelow (b - a + 1) g) as [r g']. simpl in *. lia.
Qed.

Lemma choice_pair `{RandomSource G} (d x y : Z) (g : G) :
  (choice d [x; y] g).1 = x \/ (choice d [x; y] g).1 = y.
Proof.
  unfold choice.
  pose proof (rs_randbelow_range (Z.of_nat (length [x; y])) g) as Hr.
  destruct (rs_randbelow (Z.of_nat (length [x; y])) g) as [r g'].
  simpl in *.
  assert (Hc : r = 0 \/ r = 1) by lia.
  destruct Hc as [-> | ->]; simpl; auto.
Qed.

End PyFacts.

Import SatTest Contract PyFacts.

(* ===================================================================== *)
(** ** The frame classifier                                               *)
(* ===================================================================== *)

Module ClassifierSpec.

Lemma check_protocol_length data p :
  check_protocol data = Some p -> (10 <= length data)%nat.
Proof. unfold check_protocol. case_bool_decide; [done | discriminate]. Qed.

Lemma check_protocol_short data :
  (length data < 10)%nat -> check_protocol data = None.
Proof.
  intros Hlen. unfold check_protocol. case_bool_decide; [lia | done].
Qed.

(** C3, as stated, fails: the three sync bytes alone, a buffer of length
    3, are classified [None] (Unknown), not CCSDS. *)
Lemma ccsds_marker_alone_is_unknown :
  take 3 ccsds_marker = [0x1A; 0xCF; 0xFC]
  /\ check_protocol ccsds_marker <> Some CCSDS.
Proof. split; [reflexivity | vm_compute; discriminate]. Qed.

(** C3, amended: a buffer of at least 10 bytes whose first three bytes are
    0x1A, 0xCF, 0xFC is classified CCSDS. *)
Theorem check_protocol_ccsds (data : bytes) :
  (10 <= length data)%nat ->
  take 3 data = [0x1A; 0xCF; 0xFC] ->
  check_protocol data = Some CCSDS.
Proof.
  intros Hlen Hmark. unfold check_protocol, slice.
  rewrite bool_decide_eq_true_2 by done.
  destruct data as [|b0 data]; [discriminate |].
  injection Hmark as -> Hrest.
  rewrite bool_decide_eq_false_2 by (simpl; intros [=]).
  rewrite bool_decide_eq_true_2; [done |].
  simpl. by rewrite Hrest.
Qed.

Lemma check_protocol_ccsds_witness :
  check_protocol (ccsds_marker ++ [0; 0; 0; 0; 0; 0; 0]) = Some CCSDS.
Proof.
  apply check_protocol_ccsds; [simpl; lia | reflexivity].
Defined.

(** C4: the rules of the classifier, in their order. A buffer shorter than
    10 bytes is Unknown ([None]); otherwise a first byte 0x47 gives DVB-S2;
    otherwise the sync bytes 0x1A 0xCF 0xFC give CCSDS; otherwise the
    buffer is Unknown. The classifier is a function of the buffer's
    contents only: it returns the tag and has no buffer to hand back. *)
Theorem check_protocol_rules (data : bytes) :
  ((length data < 10)%nat -> check_protocol data = None)
  /\ ((10 <= length data)%nat -> data !! 0%nat = Some 0x47 ->
      check_protocol data = Some DVB_S2)
  /\ ((10 <= length data)%nat -> data !! 0%nat <> Some 0x47 ->
      take 3 data = [0x1A; 0xCF; 0xFC] ->
      check_protocol data = Some CCSDS)
  /\ ((10 <= length data)%nat -> data !! 0%nat <> Some 0x47 ->
      take 3 data <> [0x1A; 0xCF; 0xFC] ->
      check_protocol data = None).
Proof.
  unfold check_protocol, slice. rewrite Nat.sub_0_r, drop_0.
  destruct data as [|b0 data]; simpl;
    repeat split; intros; repeat case_bool_decide; try done; try lia.
  all: try (simplify_eq/=; congruence).
Qed.

Lemma check_protocol_rules_witness :
  check_protocol [0x47; 1; 2] = None
  /\ check_protocol [0x47; 0x1A; 0xCF; 0xFC; 4; 5; 6; 7; 8; 9] = Some DVB_S2
  /\ check_protocol [0x1A; 0xCF; 0xFC; 3; 4; 5; 6; 7; 8; 9] = Some CCSDS
  /\ check_protocol [0x1A; 0xCF; 0xFD; 3; 4; 5; 6; 7; 8; 9] = None.
Proof.
  pose proof (check_protocol_rules [0x47; 1; 2]) as (H1 & _).
  pose proof (check_protocol_rules
                [0x47; 0x1A; 0xCF; 0xFC; 4; 5; 6; 7; 8; 9]) as (_ & H2 & _).
  pose proof (check_protocol_rules
                [0x1A; 0xCF; 0xFC; 3; 4; 5; 6; 7; 8; 9]) as (_ & _ & H3 & _).
  pose proof (check_protocol_rules
                [0x1A; 0xCF; 0xFD; 3; 4; 5; 6; 7; 8; 9]) as (_ & _ & _ & H4).
  split; [| split; [| split]].
  - apply H1. simpl. lia.
  - apply H2; [simpl; lia | reflexivity].
  - apply H3; [simpl; lia | discriminate | reflexivity].
  - apply H4; [simpl; lia | discriminate | discriminate].
Defined.

End ClassifierSpec.

(* ===================================================================== *)
(** ** The fuzzing strategies                                             *)
(* ===================================================================== *)

Module FuzzSpec.

Import ClassifierSpec.

Section WithRandomSource.

Context `{RS : RandomSource G}.

(** With a common value of length 0 no round of the first loop touches
    the buffer: [""] never matches, and [b""] matches with nothing to
    complement. *)
Lemma xor_pass_empty (data : bytes) (cv : common) :
  common_len cv = 0%nat -> xor_pass data cv = Ok data.
Proof.
  intros Hlen. unfold xor_pass. rewrite Hlen.
  destruct (for_range_total (fun s => s = data)
              (fun i fuzzed_data =>
                 if window_matches (slice fuzzed_data i (i + 0)) cv
                 then xor_window i 0 fuzzed_data
                 else Ok fuzzed_data)
              (length data + 1 - 0) 0 data) as (s' & Hrun & ->);
    [done | | exact Hrun].
  intros i s _ ->. exists data. split; [| done].
  by destruct (window_matches _ _).
Qed.

(** The four stores of the DVB-S2 branch on a buffer of at least 10
    bytes: the first three succeed, the fourth offers 16200 or 64800 to
    a bytearray and raises. *)
Lemma dvbs2_stores_raise (fuzzed : bytes) (g : G) :
  (10 <= length fuzzed)%nat ->
  (let '(v, g) := randint 0 15 g in
   let* fuzzed_data := bytearray_set fuzzed 1 v in
   let '(v, g) := choice 0 [0; 1] g in
   let* fuzzed_data := bytearray_set fuzzed_data 2 v in
   let '(v, g) := randint 20 35 g in
   let* fuzzed_data := bytearray_set fuzzed_data 3 v in
   let '(v, g) := choice 0 [16200; 64800] g in
   let* fuzzed_data := bytearray_set fuzzed_data 4 v in
   Ok (fuzzed_data, g)) = Raise ValueError.
Proof.
  intros Hlen.
  pose proof (randint_range 0 15 g ltac:(lia)) as H1.
  destruct (randint 0 15 g) as [v1 g1]. simpl in H1.
  rewrite bytearray_set_Ok by lia. simpl.
  pose proof (choice_pair 0 0 1 g1) as H2.
  destruct (choice 0 [0; 1] g1) as [v2 g2]. simpl in H2.
  rewrite bytearray_set_Ok by (rewrite ?length_insert; lia). simpl.
  pose proof (randint_range 20 35 g2 ltac:(lia)) as H3.
  destruct (randint 20 35 g2) as [v3 g3]. simpl in H3.
  rewrite bytearray_set_Ok by (rewrite ?length_insert; lia). simpl.
  pose proof (choice_pair 0 16200 64800 g3) as H4.
  destruct (choice 0 [16200; 64800] g3) as [v4 g4]. simpl in H4.
  rewrite bytearray_set_ValueError by (rewrite ?length_insert; lia).
  done.
Qed.

(** Every round of [random_fuzz] stores a byte at an existing index, so
    the function returns, and with a buffer as long as its input. *)
Lemma random_fuzz_length (data : bytes) (g : G) :
  exists out g', random_fuzz data g = Ok (out, g')
                 /\ length out = length data.
Proof.
  unfold random_fuzz.
  destruct (for_range_total
              (fun s : bytes * G => length s.1 = length data)
              (fun i '(fuzzed_data, g) =>
                 let '(hit, g) := random_below_5_percent g in
                 if hit then
                   let '(v, g) := randint 0 255 g in
                   let* fuzzed_data := bytearray_set fuzzed_data i v in
                   Ok (fuzzed_data, g)
                 else Ok (fuzzed_data, g))
              (length data) 0 (data, g)) as ([out g'] & Hrun & Hlen).
  - done.
  - intros i [b h] Hi Hb. simpl in Hb.
    destruct (random_below_5_percent h) as [[|] h1]; [| eauto].
    pose proof (randint_range 0 255 h1 ltac:(lia)) as Hv.
    destruct (randint 0 255 h1) as [v h2]. simpl in Hv.
    rewrite bytearray_set_Ok by lia. simpl.
    eexists. split; [done |]. simpl. by rewrite length_insert.
  - exists out, g'. done.
Qed.

Lemma xor_window_length i n (b b' : bytes) :
  xor_window i n b = Ok b' -> length b' = length b.
Proof.
  unfold xor_window.
  apply (for_range_partial (fun s => length s = length b)); [done |].
  intros j s s' _ Hs (x & _ & Hset)%bind_Ok.
  apply bytearray_set_length in Hset. congruence.
Qed.

Lemma xor_pass_length (data fuzzed : bytes) (cv : common) :
  xor_pass data cv = Ok fuzzed -> length fuzzed = length data.
Proof.
  unfold xor_pass.
  apply (for_range_partial (fun s => length s = length data)); [done |].
  intros i s s' _ Hs. destruct (window_matches _ _).
  - intros Hw%xor_window_length. congruence.
  - intros [= <-]. done.
Qed.

(** Whenever [heuristic_fuzz] returns, its result is as long as its
    input. *)
Lemma heuristic_fuzz_length (data out : bytes) (cv : common) (g g' : G) :
  heuristic_fuzz data cv g = Ok (out, g') -> length out = length data.
Proof.
  unfold heuristic_fuzz.
  intros (fuzzed & Hx & Hrest)%bind_Ok.
  apply xor_pass_length in Hx. rewrite <- Hx. clear Hx.
  destruct (check_protocol fuzzed) as [[|]|] eqn:Hp.
  - apply check_protocol_length in Hp.
    rewrite dvbs2_stores_raise in Hrest by done. discriminate.
  - repeat (let v := fresh "v" in let h := fresh "h" in
            destruct (randint _ _ _) as [v h] || destruct (choice _ _ _) as [v h];
            apply bind_Ok in Hrest as (? & ?%bytearray_set_length & Hrest)).
    injection Hrest as <- <-. congruence.
  - by injection Hrest as <- <-.
Qed.

(** C1 (the code departs from it): once the first loop has returned a
    buffer that [check_protocol] classifies as DVB-S2, [heuristic_fuzz]
    returns no buffer at all: the store of the frame length, 16200 or
    64800, into offset 4 of the bytearray raises [ValueError]. *)
Theorem heuristic_fuzz_dvbs2_raises (data fuzzed : bytes) (cv : common)
        (g : G) :
  xor_pass data cv = Ok fuzzed ->
  check_protocol fuzzed = Some DVB_S2 ->
  heuristic_fuzz data cv g = Raise ValueError.
Proof.
  intros Hx Hp. unfold heuristic_fuzz. rewrite Hx. simpl. rewrite Hp.
  apply dvbs2_stores_raise. by eapply check_protocol_length.
Qed.

(** C9: with a common value of length 0 the first loop of
    [heuristic_fuzz] changes no byte; so on a buffer that
    [check_protocol] classifies as Unknown, and in particular on every
    buffer shorter than 10 bytes, [heuristic_fuzz] returns the buffer
    as it was (and draws no random number). *)
Theorem heuristic_fuzz_empty_pattern (data : bytes) (cv : common) (g : G) :
  common_len cv = 0%nat ->
  xor_pass data cv = Ok data
  /\ (check_protocol data = None -> heuristic_fuzz data cv g = Ok (data, g))
  /\ ((length data < 10)%nat -> heuristic_fuzz data cv g = Ok (data, g)).
Proof.
  intros Hlen.
  assert (Hu : check_protocol data = None ->
               heuristic_fuzz data cv g = Ok (data, g)).
  { intros Hp. unfold heuristic_fuzz.
    rewrite (xor_pass_empty data cv Hlen). simpl. by rewrite Hp. }
  split; [by apply xor_pass_empty |]. split; [exact Hu |].
  intros Hshort. apply Hu. by apply check_protocol_short.
Qed.

End WithRandomSource.

Lemma heuristic_fuzz_dvbs2_raises_witness :
  heuristic_fuzz dvbs2_frame (Bytes [0; 0; 0]) 7 = Raise ValueError.
Proof.
  apply (heuristic_fuzz_dvbs2_raises dvbs2_frame
           [0x47; 255; 255; 255; 255; 255; 255; 255; 255; 255]);
    reflexivity.
Defined.

Lemma heuristic_fuzz_empty_pattern_witness :
  xor_pass [1; 2; 3] EmptyStr = Ok [1; 2; 3]
  /\ heuristic_fuzz [1; 2; 3] EmptyStr 7 = Ok ([1; 2; 3], 7).
Proof.
  pose proof (heuristic_fuzz_empty_pattern [1; 2; 3] EmptyStr 7 eq_refl)
    as (H1 & _ & H3).
  split; [exact H1 | apply H3; simpl; lia].
Defined.

(** C8 (the code departs from it): on the DVB-S2 frame of the
    specification's scenario, with an empty common value and any random
    source, [heuristic_fuzz] raises [ValueError]; it returns no buffer,
    of the same length or of any other. One defect with C1. *)
Theorem heuristic_fuzz_returns_nothing_on_dvbs2 :
  forall G (RS : RandomSource G) (g : G),
    heuristic_fuzz dvbs2_frame EmptyStr g = Raise ValueError
    /\ ~ (exists out g', heuristic_fuzz dvbs2_frame EmptyStr g = Ok (out, g')
                         /\ length out = length dvbs2_frame).
Proof.
  intros G RS g.
  assert (Hr : heuristic_fuzz dvbs2_frame EmptyStr g = Raise ValueError).
  { unfold heuristic_fuzz. rewrite xor_pass_empty by done. simpl.
    change (check_protocol dvbs2_frame) with (Some DVB_S2). cbv iota beta.
    apply dvbs2_stores_raise. simpl. lia. }
  split; [exact Hr |]. intros (out & g' & H & _). congruence.
Qed.

End FuzzSpec.

(* ===================================================================== *)
(** ** The pattern miner                                                  *)
(* ===================================================================== *)

Module MinerSpec.

Local Open Scope nat_scope.

Lemma occurs_at_bound (data s : bytes) p :
  s <> [] -> occurs_at data s p -> p + length s <= length data.
Proof.
  unfold occurs_at. intros Hs Hocc.
  assert (Hl : length (take (length s) (drop p data)) = length s)
    by (by rewrite Hocc).
  rewrite length_take, length_drop in Hl.
  assert (1 <= length s) by (destruct s; [done | simpl; lia]).
  lia.
Qed.

Lemma slice_length (data : bytes) st L :
  st + L <= length data -> length (slice data st (st + L)) = L.
Proof.
  intros H. unfold slice. rewrite length_take, length_drop. lia.
Qed.

Lemma slice_occurs (data : bytes) st L :
  st + L <= length data -> occurs_at data (slice data st (st + L)) st.
Proof.
  intros H. unfold occurs_at. rewrite slice_length by done.
  unfold slice. f_equal. lia.
Qed.

Lemma occurs_slice (data s : bytes) p :
  occurs_at data s p -> slice data p (p + length s) = s.
Proof.
  unfold occurs_at, slice. intros H.
  replace (p + length s - p) with (length s) by lia. done.
Qed.

Lemma starts_with_occurs (sub hay : bytes) :
  starts_with sub hay = true <-> occurs_at hay sub 0.
Proof. unfold starts_with, occurs_at. apply bool_decide_eq_true. Qed.

Lemma occurs_at_cons (x : Z) (hay sub : bytes) p :
  occurs_at (x :: hay) sub (S p) <-> occurs_at hay sub p.
Proof. done. Qed.

Section Count.

Variable sub : bytes.
Hypothesis sub_nonempty : sub <> [].

Lemma sub_length : 1 <= length sub.
Proof using sub_nonempty. destruct sub; [done | simpl; lia]. Qed.

(** A count of at least one comes from an occurrence that the scan was
    allowed to see. *)
Lemma count_scan_one hay :
  forall k, 1 <= count_scan sub hay k ->
            exists p, k <= p /\ occurs_at hay sub p.
Proof.
  induction hay as [|x hay IH]; intros k; simpl; [lia |].
  destruct k as [|k].
  - destruct (starts_with sub (x :: hay)) eqn:E.
    + intros _. exists 0. split; [lia |].
      by apply starts_with_occurs.
    + intros (p & _ & Hp)%IH. exists (S p). split; [lia | done].
  - intros (p & Hk & Hp)%IH. exists (S p). split; [lia | done].
Qed.

(** A count of at least two comes from two occurrences that do not
    overlap. *)
Lemma count_scan_two hay :
  forall k, 2 <= count_scan sub hay k ->
            exists p q, k <= p /\ p + length sub <= q
                        /\ occurs_at hay sub p /\ occurs_at hay sub q.
Proof using sub_nonempty.
  pose proof sub_length as Hsub.
  induction hay as [|x hay IH]; intros k; simpl; [lia |].
  destruct k as [|k].
  - destruct (starts_with sub (x :: hay)) eqn:E.
    + intros Hc.
      destruct (count_scan_one hay (length sub - 1)) as (q & Hq & Hocc);
        [lia |].
      exists 0, (S q). repeat split; [lia | lia | | done].
      by apply starts_with_occurs.
    + intros (p & q & _ & Hpq & Hp & Hq)%IH.
      exists (S p), (S q). repeat split; [lia | lia | done | done].
  - intros (p & q & Hk & Hpq & Hp & Hq)%IH.
    exists (S p), (S q). repeat split; [lia | lia | done | done].
Qed.

(** An occurrence that the scan is allowed to see is counted, or an
    earlier one is. *)
Lemma count_scan_finds_one hay :
  forall k p, k <= p -> occurs_at hay sub p -> 1 <= count_scan sub hay k.
Proof using sub_nonempty.
  induction hay as [|x hay IH]; intros k p Hk Hocc.
  - apply occurs_at_bound in Hocc; [| done].
    pose proof sub_length. simpl in Hocc. lia.
  - simpl. destruct k as [|k].
    + destruct (starts_with sub (x :: hay)) eqn:E; [lia |].
      destruct p as [|p].
      * apply starts_with_occurs in Hocc. congruence.
      * apply (IH 0 p); [lia | done].
    + destruct p as [|p]; [lia |]. apply (IH k p); [lia | done].
Qed.

(** Two occurrences that do not overlap give a count of at least two. *)
Lemma count_scan_finds_two hay :
  forall k p q, k <= p -> p + length sub <= q ->
                occurs_at hay sub p -> occurs_at hay sub q ->
                2 <= count_scan sub hay k.
Proof using sub_nonempty.
  pose proof sub_length as Hsub.
  induction hay as [|x hay IH]; intros k p q Hk Hpq Hp Hq.
  - apply occurs_at_bound in Hp; [| done]. simpl in Hp. lia.
  - simpl. destruct k as [|k].
    + destruct (starts_with sub (x :: hay)) eqn:E.
      * destruct q as [|q]; [lia |].
        pose proof (count_scan_finds_one hay (length sub - 1) q
                      ltac:(lia) Hq). lia.
      * destruct p as [|p].
        -- apply starts_with_occurs in Hp. congruence.
        -- destruct q as [|q]; [lia |].
           apply (IH 0 p q); [lia | lia | done | done].
    + destruct p as [|p]; [lia |]. destruct q as [|q]; [lia |].
      apply (IH k p q); [lia | lia | done | done].
Qed.

End Count.

(** [data.count(s) > 1] says that [s] occurs twice without overlap. *)
Lemma count_repeats_apart (data s : bytes) :
  s <> [] -> (1 < bytes_count data s <-> repeats_apart data s).
Proof.
  intros Hs. unfold repeats_apart.
  assert (Hc : bytes_count data s = count_scan s data 0)
    by (destruct s; done).
  rewrite Hc. split.
  - intros (p & q & _ & H)%count_scan_two; [eauto | done].
  - intros (p & q & Hpq & Hp & Hq).
    apply (count_scan_finds_two s Hs data 0 p q); [lia | done | done | done].
Qed.

(** An invariant of a loop over [range(start, start + len)]. *)
Lemma fold_left_seq_inv {A} (f : A -> nat -> A) (P : nat -> A -> Prop) :
  forall len start a,
    P start a ->
    (forall i a, start <= i < start + len -> P i a -> P (S i) (f a i)) ->
    P (start + len) (fold_left f (seq start len) a).
Proof.
  induction len as [|len IH]; intros start a Ha Hstep; simpl.
  - by rewrite Nat.add_0_r.
  - replace (start + S len) with (S start + len) by lia.
    apply IH; [apply Hstep; [lia | done] |].
    intros i b Hi Hb. apply Hstep; [lia | done].
Qed.

Section Loops.

Variable data : bytes.

(** One round of the inner loop. *)
Lemma candidate_step k j longest :
  enumerated data k j ->
  holds_best data (before data k j) longest ->
  holds_best data (before data k (S j)) (candidate data k j longest).
Proof.
  intros [Hk Hj] Hinv. unfold candidate.
  rewrite slice_length by lia.
  assert (Hnew : forall L st, before data k (S j) L st ->
                   before data k j L st \/ (L = k /\ st = j))
    by (unfold before, enumerated; intros; lia).
  assert (Hnow : before data k (S j) k j)
    by (unfold before, enumerated; lia).
  assert (Hold : forall L st, before data k j L st ->
                   before data k (S j) L st)
    by (unfold before, enumerated; intros; lia).
  assert (Hle : forall L st, before data k j L st -> L <= k)
    by (unfold before, enumerated; intros; lia).
  destruct (decide (accepted data k j)) as [Hacc | Hrej].
  - rewrite (bool_decide_eq_true_2 _ Hacc). simpl.
    destruct Hinv
      as [[-> Hnone] | (L & st & Hseen & Hen & Ha & -> & Hfirst & Htop)].
    + simpl. rewrite bool_decide_eq_true_2 by lia.
      right. exists k, j.
      split; [done |]. split; [done |]. split; [done |].
      split; [done |]. split.
      * intros st' Hst' _. apply Hnone. unfold before, enumerated. lia.
      * intros L' st' HL' [?%Hle | [-> _]]%Hnew; lia.
    + pose proof (Hle _ _ Hseen) as HLk. destruct Hen as [HL Hst].
      simpl. rewrite slice_length by lia.
      case_bool_decide as Hlt.
      * right. exists k, j.
        split; [done |]. split; [done |]. split; [done |].
        split; [done |]. split.
        -- intros st' Hst' _. apply Htop; [done |].
           unfold before, enumerated. lia.
        -- intros L' st' HL' [?%Hle | [-> _]]%Hnew; lia.
      * assert (L = k) as -> by lia.
        right. exists k, st.
        split; [by apply Hold |]. split; [done |]. split; [done |].
        split; [done |]. split.
        -- intros st' Hst' _. apply Hfirst; [done |].
           unfold before, enumerated in *. lia.
        -- intros L' st' HL' [?%Hle | [-> _]]%Hnew; lia.
  - rewrite (bool_decide_eq_false_2 _ Hrej). simpl.
    destruct Hinv
      as [[-> Hnone] | (L & st & Hseen & Hen & Ha & -> & Hfirst & Htop)].
    + left. split; [done |].
      intros L st [? | [-> ->]]%Hnew; [by apply Hnone | done].
    + right. exists L, st.
      split; [by apply Hold |]. split; [done |]. split; [done |].
      split; [done |]. split.
      * intros st' Hst' [? | [-> ->]]%Hnew; [by apply Hfirst | done].
      * intros L' st' HL' [? | [-> ->]]%Hnew; [by apply Htop | done].
Qed.

Lemma holds_best_ext (seen seen' : nat -> nat -> Prop) longest :
  (forall L st, seen L st <-> seen' L st) ->
  holds_best data seen longest -> holds_best data seen' longest.
Proof.
  intros Hext [[-> Hnone] | (L & st & Hseen & Hen & Ha & -> & Hfirst & Htop)].
  - left. split; [done |]. intros L st ?%Hext. by apply Hnone.
  - right. exists L, st.
    split; [by apply Hext |]. split; [done |]. split; [done |].
    split; [done |]. split.
    + intros st' ? ?%Hext. by apply Hfirst.
    + intros L' st' ? ?%Hext. by apply Htop.
Qed.

(** The inner loop for the length [k]. *)
Lemma scan_starts_row k longest :
  1 <= k ->
  holds_best data (before data k 0) longest ->
  holds_best data (before data (S k) 0) (scan_starts data longest k).
Proof.
  intros Hk Hinv. unfold scan_starts.
  pose proof (fold_left_seq_inv
                (fun longest start => candidate data k start longest)
                (fun j longest => holds_best data (before data k j) longest)
                (length data - k) 0 longest Hinv) as Hrow.
  simpl in Hrow.
  eapply holds_best_ext; [| apply Hrow].
  - intros L st. unfold before, enumerated. lia.
  - intros j a Hj. apply candidate_step. unfold enumerated. lia.
Qed.

(** The two loops together: the result stands in front of every
    enumerated candidate. *)
Lemma build_holds_best :
  holds_best data (enumerated data) (build_common_values_from_file data).
Proof.
  unfold build_common_values_from_file.
  pose proof (fold_left_seq_inv (scan_starts data)
                (fun k longest => holds_best data (before data k 0) longest)
                (length data - 1) 1 EmptyStr) as Hall.
  simpl in Hall.
  eapply holds_best_ext; [| apply Hall].
  - intros L st. unfold before, enumerated. lia.
  - left. split; [done |]. unfold before, enumerated. intros L st. lia.
  - intros k a Hk. apply scan_starts_row. lia.
Qed.

(** An enumerated candidate is accepted exactly when it occurs twice
    without overlap. *)
Lemma accepted_repeats_apart L st :
  enumerated data L st ->
  accepted data L st <-> repeats_apart data (slice data st (st + L)).
Proof.
  intros [HL Hst]. unfold accepted. apply count_repeats_apart.
  intros Hnil. apply (f_equal length) in Hnil.
  rewrite slice_length in Hnil by lia. simpl in Hnil. lia.
Qed.

(** A sequence that occurs twice without overlap is an enumerated and
    accepted candidate, at its first offset of the two or at any
    earlier offset where it occurs. *)
Lemma repeats_apart_accepted (s : bytes) p0 :
  s <> [] -> repeats_apart data s -> occurs_at data s p0 ->
  exists st, st <= p0 /\ enumerated data (length s) st
             /\ slice data st (st + length s) = s
             /\ accepted data (length s) st.
Proof.
  intros Hs (p & q & Hpq & Hp & Hq) Hp0.
  assert (Hlen : 1 <= length s) by (destruct s; [done | simpl; lia]).
  pose proof (occurs_at_bound data s q Hs Hq) as Hqb.
  assert (Hm : exists m, m <= p0 /\ m + length s <= q /\ occurs_at data s m).
  { destruct (decide (p0 <= p)); [exists p0 | exists p];
      (split; [lia | split; [lia | done]]). }
  destruct Hm as (m & Hm0 & Hmq & Hm).
  exists m. split; [done |].
  assert (Hen : enumerated data (length s) m) by (unfold enumerated; lia).
  split; [done |]. split; [by apply occurs_slice |].
  apply accepted_repeats_apart; [done |].
  rewrite (occurs_slice data s m Hm). by exists m, q.
Qed.

(** C2, amended: the miner returns the longest byte sequence that occurs
    at least twice in the buffer at positions that do not overlap; among
    the sequences of that length it returns the one found first; when no
    sequence occurs twice without overlap it returns an empty sequence. *)
Theorem build_common_values_longest_apart :
  longest_repeat repeats_apart data
    (common_bytes (build_common_values_from_file data)).
Proof.
  destruct build_holds_best
    as [[-> Hnone] | (L & st & _ & Hen & Ha & -> & Hfirst & Htop)]; simpl.
  - left. split; [done |]. intros s Hs Hrep.
    destruct Hrep as (p & q & Hpq & Hp & Hq).
    destruct (repeats_apart_accepted s p Hs) as (m & _ & Hen & _ & Ha);
      [by exists p, q | done |].
    by apply (Hnone (length s) m).
  - pose proof Hen as [HL Hst].
    assert (Hlen : length (slice data st (st + L)) = L)
      by (apply slice_length; lia).
    right. split; [| split; [| split]].
    + intros Hnil. rewrite Hnil in Hlen. simpl in Hlen. lia.
    + by apply accepted_repeats_apart.
    + intros s Hrep. rewrite Hlen.
      destruct (decide (s = [])) as [-> | Hs]; [simpl; lia |].
      destruct (Nat.le_gt_cases (length s) L) as [| Hgt]; [done |].
      exfalso. destruct Hrep as (p & q & Hpq & Hp & Hq).
      destruct (repeats_apart_accepted s p Hs) as (m & _ & Hen' & _ & Ha');
        [by exists p, q | done |].
      by apply (Htop (length s) m).
    + exists st. split; [apply slice_occurs; lia |].
      intros s p Hrep Hsl Hp. rewrite Hlen in Hsl.
      assert (Hs : s <> []) by (intros ->; simpl in Hsl; lia).
      destruct (repeats_apart_accepted s p Hs Hrep Hp)
        as (m & Hmp & Hen' & _ & Ha').
      rewrite Hsl in *.
      destruct (Nat.le_gt_cases st m) as [| Hgt]; [lia |].
      exfalso. by apply (Hfirst m).
Qed.

End Loops.

(** C2, as stated, fails: in "AAA" the sequence "AA" occurs at the
    offsets 0 and 1, which overlap, and the miner returns "A". *)
Lemma overlapping_repeat_is_missed :
  build_common_values_from_file (lit "AAA") = Bytes (lit "A")
  /\ repeats (lit "AAA") (lit "AA")
  /\ ~ longest_repeat repeats (lit "AAA")
         (common_bytes (build_common_values_from_file (lit "AAA"))).
Proof.
  assert (Hrep : repeats (lit "AAA") (lit "AA")).
  { exists 0, 1. split; [lia |]. split; reflexivity. }
  split; [reflexivity |]. split; [exact Hrep |].
  change (build_common_values_from_file (lit "AAA")) with (Bytes (lit "A")).
  intros [[Hnil _] | (_ & _ & Hmax & _)].
  - discriminate Hnil.
  - apply Hmax in Hrep. simpl in Hrep. lia.
Qed.

(** C10: a non-empty result of the miner occurs at two positions of the
    buffer that do not overlap (hence at two positions), and it is
    strictly shorter than the buffer. *)
Theorem build_common_values_apart (data : bytes) :
  let r := common_bytes (build_common_values_from_file data) in
  r <> [] ->
  repeats_apart data r /\ repeats data r /\ length r < length data.
Proof.
  intros r Hr. subst r.
  destruct (build_holds_best data)
    as [[Hemp _] | (L & st & _ & Hen & Ha & Hres & _)].
  - rewrite Hemp in Hr. done.
  - rewrite Hres in *. simpl in *. pose proof Hen as [HL Hst].
    apply accepted_repeats_apart in Ha; [| done].
    assert (Hlen : length (slice data st (st + L)) = L)
      by (apply slice_length; lia).
    split; [done |]. split; [| lia].
    destruct Ha as (p & q & Hpq & Hp & Hq).
    exists p, q. split; [lia | done].
Qed.

Lemma build_common_values_apart_witness :
  repeats_apart (lit "ABAB") (lit "AB")
  /\ repeats (lit "ABAB") (lit "AB") /\ 2 < 4.
Proof.
  apply (build_common_values_apart (lit "ABAB")). discriminate.
Defined.

End MinerSpec.

(* ===================================================================== *)
(** ** The mode orchestrator                                              *)
(* ===================================================================== *)

Module OrchestratorSpec.

(** The SignalJamming branch on its own, started from the namespace that
    [parse_args] would return: with none of [--freq], [--power],
    [--bandwidth] given, and a server listening on port 6789, it connects
    to 127.0.0.1:6789, sends exactly the bytes of
    "freq=2.4G;power=30;bandwidth=10M" and closes. *)
Theorem signal_jamming_defaults (listening : Z -> bool) (args : Namespace) :
  listening 6789%Z = true ->
  freq args = None -> power args = None -> bandwidth args = None ->
  SignalJamming listening args
  = ([Connect (lit "127.0.0.1") 6789;
      Send (lit "freq=2.4G;power=30;bandwidth=10M");
      Close], Ok tt).
Proof.
  intros Hl Hf Hp Hb.
  unfold SignalJamming, send_signal_params_to_generation.
  rewrite Hl, Hf, Hp, Hb. reflexivity.
Qed.

Lemma signal_jamming_defaults_witness :
  SignalJamming (fun port => port =? 6789)%Z
                {| freq := None; power := None; bandwidth := None |}
  = ([Connect (lit "127.0.0.1") 6789;
      Send (lit "freq=2.4G;power=30;bandwidth=10M");
      Close], Ok tt).
Proof.
  apply signal_jamming_defaults; reflexivity.
Defined.

(** The parser has [add_argument], and no attribute [add]. *)
Lemma getattr_add_argument : Script.getattr "add_argument" = Ok tt.
Proof. by vm_compute. Qed.

Lemma getattr_add : Script.getattr "add" = Raise AttributeError.
Proof. by vm_compute. Qed.

(** C5 (the code departs from it): whatever the command line, and so for
    [--mode SignalJamming] with none of the three parameters, the script
    ends in [AttributeError] at line 151, where [parser.add] is
    evaluated, before [parse_args] and before any branch runs: no
    connection is opened and nothing is sent to the generation control
    port, whatever the lines after 151 would do. *)
Theorem script_stops_before_parsing
        (rest : list (list Z) -> list net_event * result unit)
        (argv : list (list Z)) :
  Script.main rest argv = ([], Raise AttributeError)
  /\ Script.main (fun _ =>
                    SignalJamming (fun _ => true)
                      {| freq := None; power := None; bandwidth := None |})
       [lit "--mode"; lit "SignalJamming"]
     = ([], Raise AttributeError)
  /\ forall payload, Send payload ∉ (Script.main rest argv).1.
Proof.
  assert (H : forall r a, Script.main r a = ([], Raise AttributeError)).
  { intros r a. unfold Script.main.
    by rewrite getattr_add_argument, getattr_add. }
  split; [apply H |]. split; [apply H |].
  intros payload. rewrite H. simpl. apply not_elem_of_nil.
Qed.

(** The bytes sent are the ASCII codes of the text. *)
Lemma default_params_bytes :
  lit "freq=2.4G;power=30;bandwidth=10M"
  = [102; 114; 101; 113; 61; 50; 46; 52; 71; 59; 112; 111; 119; 101; 114;
     61; 51; 48; 59; 98; 97; 110; 100; 119; 105; 100; 116; 104; 61; 49;
     48; 77]%Z.
Proof. reflexivity. Qed.

(** C6, as stated, fails: a child that writes the single byte 0xFF to its
    output and nothing to its error stream makes the GNSS call raise
    ([UnicodeDecodeError] from [output.decode()]); a child that writes
    that byte to its error stream makes the generic call raise. *)
Lemma undecodable_stream_raises :
  generate_and_send_gnss_signal unit (fun _ => lit "0.0")
    (fun _ => ([255%Z], [])) tt tt tt 0 = Raise UnicodeDecodeError
  /\ run_gnuradio_script (fun _ => ([], [255%Z])) (lit "playback.py") None
     = Raise UnicodeDecodeError
  /\ ~ stderr_contract [255%Z] []
  /\ ~ stderr_contract [] [255%Z].
Proof.
  split; [reflexivity |]. split; [reflexivity |]. split.
  - intros [Hgnss _].
    destruct (Hgnss tt tt tt 0%Z) as [[Hraise _] _].
    apply Hraise; [| done]. by exists UnicodeDecodeError.
  - intros [_ Hscript].
    apply (Hscript (lit "playback.py") None); [done |].
    by exists UnicodeDecodeError.
Qed.

Section Processes.

Variable float : Type.
Variable float_str : float -> str.
Variable communicate : list str -> bytes * bytes.

(** C6, amended: the GNSS call raises whenever the child's error stream
    is not empty, with [RuntimeError] carrying the error text when that
    stream is UTF-8; on an empty error stream and a UTF-8 output it
    returns, having printed the output; so for a UTF-8 output it raises
    exactly when the error stream is not empty. The generic call, on an
    error stream that is not empty and is UTF-8, returns, having
    printed the error text. *)
Theorem stderr_fatal_for_gnss_only
        (lat lon altitude : float) (time : Z) (script : str)
        (args : option (list str)) (output error output' error' : bytes) :
  communicate (gnss_cmd float float_str lat lon altitude time)
  = (output, error) ->
  communicate (script_cmd script args) = (output', error') ->
  let gnss := generate_and_send_gnss_signal float float_str communicate
                lat lon altitude time in
  (error <> [] -> raises gnss)
  /\ (forall text, error <> [] -> decode error = Ok text ->
        gnss = Raise (RuntimeError (lit "Error in GPS-SDR-SIM: " ++ text)))
  /\ (forall text, error = [] -> decode output = Ok text ->
        gnss = Ok (print2 (lit "GNSS Signal Generation Output:") text))
  /\ (forall text, decode output = Ok text ->
        (raises gnss <-> error <> []))
  /\ (forall text, error' <> [] -> decode error' = Ok text ->
        run_gnuradio_script communicate script args
        = Ok (print2 (lit "Error:") text)).
Proof.
  intros Hg Hs gnss. subst gnss.
  unfold generate_and_send_gnss_signal, run_gnuradio_script.
  rewrite Hg, Hs.
  assert (H1 : forall text, error <> [] -> decode error = Ok text ->
            (let* text := decode error in
             Raise (RuntimeError (lit "Error in GPS-SDR-SIM: " ++ text)))
            = Raise (RuntimeError (lit "Error in GPS-SDR-SIM: " ++ text))
              :> result (list Z))
    by (by intros text _ ->).
  split; [| split; [| split; [| split]]].
  - intros He. rewrite bool_decide_eq_true_2 by done.
    destruct (decode error) as [text | e]; simpl; by eexists.
  - intros text He Hd. rewrite bool_decide_eq_true_2 by done. by apply H1.
  - intros text -> Hd. rewrite bool_decide_eq_false_2 by (by intros H).
    by rewrite Hd.
  - intros text Hd. case_bool_decide as He.
    + split; [done |]. intros _.
      destruct (decode error) as [t | e]; simpl; by eexists.
    + rewrite Hd. simpl. split; [| done]. intros [e [=]].
  - intros text He Hd. rewrite bool_decide_eq_true_2 by done.
    by rewrite Hd.
Qed.

End Processes.

Lemma stderr_fatal_for_gnss_only_witness :
  generate_and_send_gnss_signal unit (fun _ => lit "0.0")
    (fun cmd => if bool_decide (length cmd = 9%nat)
                then (lit "sent", [])
                else ([], lit "no device")) tt tt tt 0
  = Ok (lit "GNSS Signal Generation Output: sent" ++ [10%Z])
  /\ run_gnuradio_script
       (fun cmd => if bool_decide (length cmd = 9%nat)
                   then (lit "sent", [])
                   else ([], lit "no device")) (lit "playback.py") None
     = Ok (lit "Error: no device" ++ [10%Z]).
Proof.
  pose proof (stderr_fatal_for_gnss_only unit (fun _ => lit "0.0")
                (fun cmd => if bool_decide (length cmd = 9%nat)
                            then (lit "sent", [])
                            else ([], lit "no device"))
                tt tt tt 0%Z (lit "playback.py") None
                (lit "sent") [] [] (lit "no device")
                eq_refl eq_refl) as (_ & _ & Hok & _ & Hlog).
  split.
  - apply (Hok (lit "sent")); reflexivity.
  - apply (Hlog (lit "no device")); [discriminate | reflexivity].
Defined.

End OrchestratorSpec.

(* ===================================================================== *)
(** ** The recorder's command loop                                        *)
(* ===================================================================== *)

Module RecorderSpec.

Import Recording.

Lemma start_recording_recording self :
  recording (start_recording self) = true.
Proof. done. Qed.

Lemma stop_recording_recording self :
  recording (stop_recording self) = false.
Proof.
  unfold stop_recording, recording.
  destruct (file_sink self) eqn:E; simpl; [done |]. by rewrite E.
Qed.

(** A payload that is not UTF-8 is no command: [decode] raises, which
    ends the loop before the recorder is touched. *)
Lemma serve_undecodable conn w :
  decode (recv conn) = Raise UnicodeDecodeError ->
  serve conn w = Raise UnicodeDecodeError.
Proof. unfold serve. by intros ->. Qed.

(** The loop serves the connections in the order of their arrival: the
    world after one more connection is the world after the earlier ones,
    served once more. *)
Lemma listen_for_commands_snoc incoming conn w :
  listen_for_commands (incoming ++ [conn]) w
  = (let* w' := listen_for_commands incoming w in serve conn w').
Proof.
  revert w. induction incoming as [|c rest IH]; intros w; simpl.
  - by destruct (serve conn w).
  - destruct (serve c w) as [w1 | e]; simpl; [apply IH | done].
Qed.




End RecorderSpec.

(* ===================================================================== *)
(** ** More on the fuzzing strategies                                     *)
(* ===================================================================== *)

Module FuzzMore.

Import Terms ClassifierSpec FuzzSpec MinerSpec.

(** On a byte, [x ^ 0xFF] is [255 - x]. *)
Lemma lxor_255 (x : Z) : 0 <= x < 256 -> Z.lxor x 0xFF = 255 - x.
Proof.
  intros Hx.
  assert (Hin : x ∈ seqZ 0 256) by (apply elem_of_seqZ; lia).
  assert (Hall : Forall (fun y => Z.lxor y 0xFF = 255 - y) (seqZ 0 256))
    by (apply (bool_decide_unpack _); vm_compute; reflexivity).
  rewrite Forall_forall in Hall. by apply Hall.
Qed.

Lemma all_bytes_lookup (data : bytes) i x :
  all_bytes data -> data !! i = Some x -> 0 <= x < 256.
Proof. intros Hall Hi. by apply (Forall_lookup_1 _ _ _ _ Hall Hi). Qed.

Section WithRandomSource.

Context `{RS : RandomSource G}.

(** X1. [random_fuzz] never raises: it returns a buffer as long as its
    input in which every byte is the input's byte at that offset or a
    byte value drawn by the generator; a buffer of bytes stays one. *)
Theorem random_fuzz_returns_bytes (data : bytes) (g : G) :
  exists out g',
    random_fuzz data g = Ok (out, g')
    /\ length out = length data
    /\ (forall i x, out !! i = Some x ->
                    data !! i = Some x \/ 0 <= x < 256)
    /\ (all_bytes data -> all_bytes out).
Proof.
  unfold random_fuzz.
  destruct (for_range_total
              (fun s : list Z * G =>
                 length s.1 = length data
                 /\ forall i x, s.1 !! i = Some x ->
                                data !! i = Some x \/ 0 <= x < 256)
              (fun i '(fuzzed_data, g) =>
                 let '(hit, g) := random_below_5_percent g in
                 if hit then
                   let '(v, g) := randint 0 255 g in
                   let* fuzzed_data := bytearray_set fuzzed_data i v in
                   Ok (fuzzed_data, g)
                 else Ok (fuzzed_data, g))
              (length data) 0 (data, g)) as ([out g'] & Hrun & Hlen & Hval).
  - split; [done |]. intros i x Hx. by left.
  - intros i [b h] Hi [Hb Hv]. simpl in Hb, Hv.
    destruct (random_below_5_percent h) as [[|] h1]; [| eauto].
    pose proof (randint_range 0 255 h1 ltac:(lia)) as Hr.
    destruct (randint 0 255 h1) as [v h2]. simpl in Hr.
    rewrite bytearray_set_Ok by lia. simpl.
    eexists. split; [done |]. simpl. split; [by rewrite length_insert |].
    intros k x Hk. destruct (decide (i = k)) as [-> | Hne].
    + rewrite list_lookup_insert_eq in Hk by lia.
      injection Hk as <-. right. lia.
    + rewrite list_lookup_insert_ne in Hk by done. by apply Hv.
  - simpl in Hlen, Hval. exists out, g'.
    split; [done |]. split; [done |]. split; [done |].
    intros Hall. apply Forall_lookup_2. intros i x Hx.
    destruct (Hval i x Hx) as [Hd | Hr]; [| done].
    by eapply all_bytes_lookup.
Qed.

Lemma xor_window_total (data b : bytes) i n :
  all_bytes data -> complemented data b -> (i + n <= length data)%nat ->
  exists b', xor_window i n b = Ok b' /\ complemented data b'.
Proof.
  intros Hall Hb Hin. unfold xor_window.
  apply (for_range_total (complemented data)); [done |].
  intros j s Hj [Hlen Hs].
  assert (Hij : (i + j < length data)%nat) by lia.
  destruct (lookup_lt_is_Some_2 data (i + j) Hij) as [x Hx].
  pose proof (all_bytes_lookup data _ _ Hall Hx) as Hxb.
  unfold bytearray_get.
  assert (Hy : exists y, s !! (i + j)%nat = Some y /\ (y = x \/ y = 255 - x)).
  { destruct (Hs _ _ Hx) as [H | H]; eauto. }
  destruct Hy as (y & Hy & Hyx). rewrite Hy. simpl.
  rewrite lxor_255 by lia.
  rewrite bytearray_set_Ok by lia.
  eexists. split; [done |]. split; [by rewrite length_insert |].
  intros k z Hz. destruct (decide ((i + j)%nat = k)) as [<- | Hne].
  - rewrite list_lookup_insert_eq by lia.
    assert (z = x) as -> by congruence.
    destruct Hyx as [-> | ->]; [by right | left; f_equal; lia].
  - rewrite list_lookup_insert_ne by done. by apply Hs.
Qed.

(** X2. On a buffer of bytes the first loop of [heuristic_fuzz] never
    raises, whatever the common value: it returns a buffer of bytes of the
    same length that holds, at every offset, the original byte or its
    complement. *)
Theorem xor_pass_complements (data : bytes) (cv : common) :
  all_bytes data ->
  exists out,
    xor_pass data cv = Ok out
    /\ length out = length data
    /\ all_bytes out
    /\ forall i x, data !! i = Some x ->
                   out !! i = Some x \/ out !! i = Some (255 - x).
Proof.
  intros Hall. unfold xor_pass.
  destruct (for_range_total (complemented data)
              (fun i fuzzed_data =>
                 if window_matches
                      (slice fuzzed_data i (i + common_len cv)) cv
                 then xor_window i (common_len cv) fuzzed_data
                 else Ok fuzzed_data)
              (length data + 1 - common_len cv) 0 data)
    as (out & Hrun & Hlen & Hout).
  - split; [done |]. intros i x Hx. by left.
  - intros i s Hi Hs. destruct (window_matches _ _); [| eauto].
    apply (xor_window_total data); [done | done | lia].
  - exists out. split; [done |]. split; [done |]. split; [| done].
    apply Forall_lookup_2. intros i y Hy.
    assert (Hi : (i < length data)%nat)
      by (rewrite <- Hlen; by eapply lookup_lt_Some).
    destruct (lookup_lt_is_Some_2 data i Hi) as [x Hx].
    pose proof (all_bytes_lookup data _ _ Hall Hx).
    destruct (Hout _ _ Hx) as [H' | H']; rewrite H' in Hy;
      injection Hy as <-; lia.
Qed.

(** X3. When the common value occurs nowhere in the buffer (as when it is
    longer than the buffer), the first loop of [heuristic_fuzz] returns
    the buffer unchanged, and so does [heuristic_fuzz] itself on a buffer
    that [check_protocol] does not recognise. *)
Theorem xor_pass_absent (data segment : bytes) (g : G) :
  (forall p, ~ occurs_at data segment p) ->
  xor_pass data (Bytes segment) = Ok data
  /\ (check_protocol data = None ->
      heuristic_fuzz data (Bytes segment) g = Ok (data, g)).
Proof.
  intros Habs.
  assert (Hx : xor_pass data (Bytes segment) = Ok data).
  { unfold xor_pass. simpl.
    destruct (for_range_total (fun s => s = data)
                (fun i fuzzed_data =>
                   if window_matches
                        (slice fuzzed_data i (i + length segment))
                        (Bytes segment)
                   then xor_window i (length segment) fuzzed_data
                   else Ok fuzzed_data)
                (length data + 1 - length segment) 0 data)
      as (s' & Hrun & ->); [done | | exact Hrun].
    intros i s Hi ->. exists data. split; [| done].
    simpl. case_bool_decide as Hw; [| done].
    exfalso. apply (Habs i). unfold occurs_at.
    rewrite <- Hw at 2. unfold slice. f_equal.
    rewrite <- Hw. unfold slice. rewrite length_take, length_drop. lia. }
  split; [done |]. intros Hp. unfold heuristic_fuzz.
  rewrite Hx. simpl. by rewrite Hp.
Qed.

(** X5. Once the first loop has returned a buffer that [check_protocol]
    classifies as CCSDS, [heuristic_fuzz] returns: the result has the
    length of the input, byte 0 is still 0x1A, the offsets 1 to 4 hold a
    spacecraft id in [1, 255], a virtual channel in [0, 7], a frame length
    in [1, 10] and a flag 0 or 1, and every later byte is as the first
    loop left it. The result is no longer classified as CCSDS: the
    overwritten offsets 1 and 2 held the sync bytes 0xCF and 0xFC. *)
Theorem heuristic_fuzz_ccsds (data fuzzed : bytes) (cv : common) (g : G) :
  xor_pass data cv = Ok fuzzed ->
  check_protocol fuzzed = Some CCSDS ->
  exists out g' v1 v2 v3 v4,
    heuristic_fuzz data cv g = Ok (out, g')
    /\ length out = length data
    /\ take 5 out = [0x1A; v1; v2; v3; v4]
    /\ 1 <= v1 <= 255 /\ 0 <= v2 <= 7 /\ 1 <= v3 <= 10 /\ (v4 = 1 \/ v4 = 0)
    /\ drop 5 out = drop 5 fuzzed
    /\ check_protocol out = None.
Proof.
  intros Hx Hp. unfold heuristic_fuzz. rewrite Hx. simpl. rewrite Hp.
  pose proof (check_protocol_length _ _ Hp) as Hlen.
  pose proof (xor_pass_length _ _ _ Hx) as Hsame.
  assert (H0 : fuzzed !! 0%nat = Some 0x1A).
  { unfold check_protocol in Hp. repeat case_bool_decide; try discriminate.
    unfold slice in *. destruct fuzzed as [|b0 ?]; [done |].
    simpl in *. congruence. }
  pose proof (randint_range 1 255 g ltac:(lia)) as H1.
  destruct (randint 1 255 g) as [v1 g1]. simpl in H1.
  rewrite bytearray_set_Ok by lia. simpl.
  pose proof (randint_range 0 7 g1 ltac:(lia)) as H2.
  destruct (randint 0 7 g1) as [v2 g2]. simpl in H2.
  rewrite bytearray_set_Ok by (rewrite ?length_insert; lia). simpl.
  pose proof (randint_range 1 10 g2 ltac:(lia)) as H3.
  destruct (randint 1 10 g2) as [v3 g3]. simpl in H3.
  rewrite bytearray_set_Ok by (rewrite ?length_insert; lia). simpl.
  pose proof (choice_pair 0 1 0 g3) as H4.
  destruct (choice 0 [1; 0] g3) as [v4 g4]. simpl in H4.
  rewrite bytearray_set_Ok by (rewrite ?length_insert; lia). simpl.
  exists (<[4%nat:=v4]> (<[3%nat:=v3]> (<[2%nat:=v2]> (<[1%nat:=v1]> fuzzed)))),
    g4, v1, v2, v3, v4.
  split; [done |].
  destruct fuzzed as [|b0 [|b1 [|b2 [|b3 [|b4 rest]]]]];
    try (simpl in Hlen; lia).
  simpl in H0. injection H0 as ->. simpl.
  split; [simpl in Hsame; lia |]. split; [done |].
  split; [done |]. split; [done |]. split; [done |]. split; [done |].
  split; [done |].
  unfold check_protocol, slice. simpl.
  case_bool_decide; [| done].
  rewrite bool_decide_eq_false_2; [done |].
  intros [= ? ?]. lia.
Qed.

End WithRandomSource.

Lemma for_range_app {St} (body : nat -> St -> result St) (a b : nat) :
  forall start s,
    for_range body start (a + b) s
    = (let* s' := for_range body start a s in
       for_range body (start + a) b s').
Proof.
  induction a as [|a IH]; intros start s; simpl.
  - by rewrite Nat.add_0_r.
  - destruct (body start s) as [s1 | e]; simpl; [| done].
    rewrite IH. by replace (S start + a)%nat with (start + S a)%nat by lia.
Qed.

(** One window of complements leaves every byte in front of it alone. *)
Lemma xor_window_behind (data b : list Z) i n :
  all_bytes data -> complemented data b -> (i + n <= length data)%nat ->
  forall first,
    exists b', for_range
                 (fun j fuzzed_data =>
                    let* x := bytearray_get fuzzed_data (i + j) in
                    bytearray_set fuzzed_data (i + j) (Z.lxor x 0xFF))
                 first (n - first) b = Ok b'
               /\ complemented data b'
               /\ forall k, (k < i + first)%nat -> b' !! k = b !! k.
Proof.
  intros Hall Hb Hin first.
  destruct (for_range_total
              (fun s => complemented data s
                        /\ forall k, (k < i + first)%nat -> s !! k = b !! k)
              (fun j fuzzed_data =>
                 let* x := bytearray_get fuzzed_data (i + j) in
                 bytearray_set fuzzed_data (i + j) (Z.lxor x 0xFF))
              (n - first) first b) as (b' & Hrun & Hc & Hk).
  - done.
  - intros j s Hj [[Hlen Hs] Hkeep].
    assert (Hij : (i + j < length data)%nat) by lia.
    destruct (lookup_lt_is_Some_2 data (i + j) Hij) as [x Hx].
    pose proof (all_bytes_lookup data _ _ Hall Hx) as Hxb.
    unfold bytearray_get.
    assert (Hy : exists y, s !! (i + j)%nat = Some y /\ (y = x \/ y = 255 - x)).
    { destruct (Hs _ _ Hx) as [H | H]; eauto. }
    destruct Hy as (y & Hy & Hyx). rewrite Hy. simpl.
    rewrite lxor_255 by lia.
    rewrite bytearray_set_Ok by lia.
    eexists. split; [done |]. split; [split |].
    + by rewrite length_insert.
    + intros k z Hz. destruct (decide ((i + j)%nat = k)) as [<- | Hne].
      * rewrite list_lookup_insert_eq by lia.
        assert (z = x) as -> by congruence.
        destruct Hyx as [-> | ->]; [by right | left; f_equal; lia].
      * rewrite list_lookup_insert_ne by done. by apply Hs.
    + intros k Hk. rewrite list_lookup_insert_ne by lia. by apply Hkeep.
  - by exists b'.
Qed.

(** X4. On a buffer of bytes in which a non-empty common value occurs,
    the first loop of [heuristic_fuzz] complements the byte at the first
    occurrence and leaves every byte in front of it as it was; so it
    always changes the buffer. *)
Theorem xor_pass_hits_first_occurrence (data segment : list Z) (p : nat)
        (x : Z) :
  all_bytes data -> segment <> [] ->
  occurs_at data segment p ->
  (forall q, (q < p)%nat -> ~ occurs_at data segment q) ->
  data !! p = Some x ->
  exists out,
    xor_pass data (Bytes segment) = Ok out
    /\ out !! p = Some (255 - x)
    /\ take p out = take p data
    /\ out <> data.
Proof.
  intros Hall Hne Hocc Hfirst Hx.
  pose proof (occurs_at_bound data segment p Hne Hocc) as Hbound.
  assert (HL : (1 <= length segment)%nat)
    by (destruct segment; [done | simpl; lia]).
  assert (Hwin : forall i, (i + length segment <= length data)%nat ->
                   slice data i (i + length segment) = segment
                   <-> occurs_at data segment i).
  { intros i _. unfold occurs_at, slice.
    by replace (i + length segment - i)%nat with (length segment) by lia. }
  assert (Hstart : complemented data data).
  { split; [done |]. intros i y Hy. by left. }
  unfold xor_pass. simpl common_len.
  replace (length data + 1 - length segment)%nat
    with (p + S (length data - length segment - p))%nat by lia.
  rewrite for_range_app.
  (* in front of the first occurrence nothing matches *)
  destruct (for_range_total (fun s => s = data)
              (fun i fuzzed_data =>
                 if window_matches
                      (slice fuzzed_data i (i + length segment))
                      (Bytes segment)
                 then xor_window i (length segment) fuzzed_data
                 else Ok fuzzed_data) p 0 data) as (s0 & -> & ->).
  { done. }
  { intros i s Hi ->. exists data. split; [| done]. simpl.
    rewrite bool_decide_eq_false_2; [done |].
    rewrite Hwin by lia. apply Hfirst. lia. }
  simpl Py.bind. simpl for_range at 1.
  (* at the first occurrence the window is complemented *)
  simpl window_matches. rewrite bool_decide_eq_true_2 by (by apply Hwin).
  unfold xor_window at 1.
  destruct (length segment) as [|L] eqn:EL; [lia |].
  simpl for_range at 1. unfold bytearray_get at 1.
  rewrite Nat.add_0_r, Hx. simpl Py.bind at 1.
  pose proof (all_bytes_lookup data _ _ Hall Hx) as Hxb.
  rewrite lxor_255 by lia.
  rewrite bytearray_set_Ok by (rewrite <- EL in Hbound; lia || lia).
  simpl Py.bind at 1.
  assert (H1 : complemented data (<[p := 255 - x]> data)).
  { split; [by rewrite length_insert |]. intros k z Hz.
    destruct (decide (p = k)) as [<- | Hpk].
    - right. rewrite list_lookup_insert_eq by lia. congruence.
    - left. by rewrite list_lookup_insert_ne. }
  destruct (xor_window_behind data (<[p := 255 - x]> data) p (S L)
              Hall H1 ltac:(lia) 1%nat) as (b1 & Hb1 & Hc1 & Hk1).
  replace (S L - 1)%nat with L in Hb1 by lia.
  rewrite Hb1. simpl Py.bind at 1.
  (* behind it no window reaches back *)
  destruct (for_range_total
              (fun s => complemented data s
                        /\ forall k, (k <= p)%nat -> s !! k = b1 !! k)
              (fun i fuzzed_data =>
                 if window_matches (slice fuzzed_data i (i + S L))
                                   (Bytes segment)
                 then xor_window i (S L) fuzzed_data
                 else Ok fuzzed_data)
              (length data - S L - p) (S (0 + p)) b1)
    as (out & Hrun & Hc & Hk).
  { done. }
  { intros i s Hi [Hcs Hks]. destruct (window_matches _ _); [| eauto].
    destruct (xor_window_behind data s i (S L) Hall Hcs ltac:(lia) 0%nat)
      as (b' & Hb' & Hc' & Hk').
    unfold xor_window. replace (S L - 0)%nat with (S L) in Hb' by lia.
    exists b'. split; [done |]. split; [done |].
    intros k Hkp. rewrite Hk' by lia. by apply Hks. }
  assert (Hp : out !! p = Some (255 - x)).
  { rewrite Hk by lia. rewrite Hk1 by lia.
    apply list_lookup_insert_eq. by eapply lookup_lt_Some. }
  exists out. split; [exact Hrun |]. split; [done |]. split.
  - apply list_eq. intros k. destruct (decide (k < p)%nat) as [Hlt | Hge].
    + rewrite !lookup_take_lt by done.
      rewrite Hk by lia. rewrite Hk1 by lia.
      by rewrite list_lookup_insert_ne by lia.
    + by rewrite !lookup_take_ge by lia.
  - intros ->. rewrite Hx in Hp. injection Hp. lia.
Qed.

Lemma xor_pass_hits_first_occurrence_witness :
  exists out,
    xor_pass [1; 0; 0; 7] (Bytes [0; 0]) = Ok out
    /\ out !! 1%nat = Some (255 - 0)
    /\ take 1 out = take 1 [1; 0; 0; 7]
    /\ out <> [1; 0; 0; 7].
Proof.
  apply (xor_pass_hits_first_occurrence [1; 0; 0; 7] [0; 0] 1 0).
  - unfold all_bytes. repeat (apply Forall_cons_2; [lia |]). apply Forall_nil_2.
  - discriminate.
  - reflexivity.
  - intros q Hq. assert (q = 0%nat) as -> by lia. vm_compute. discriminate.
  - reflexivity.
Defined.

Lemma xor_pass_complements_witness :
  exists out,
    xor_pass [0; 0; 0; 7] (Bytes [0; 0]) = Ok out
    /\ length out = 4%nat
    /\ all_bytes out
    /\ forall i x, [0; 0; 0; 7] !! i = Some x ->
                   out !! i = Some x \/ out !! i = Some (255 - x).
Proof.
  apply (xor_pass_complements [0; 0; 0; 7] (Bytes [0; 0])).
  unfold all_bytes. repeat constructor; lia.
Defined.

Lemma xor_pass_absent_witness :
  xor_pass [1; 2; 3] (Bytes [2; 2]) = Ok [1; 2; 3]
  /\ heuristic_fuzz [1; 2; 3] (Bytes [2; 2]) 7 = Ok ([1; 2; 3], 7).
Proof.
  destruct (xor_pass_absent [1; 2; 3] [2; 2] 7) as [H1 H2].
  - intros p Hp.
    assert (Hne : [2; 2] <> ([] : list Z)) by discriminate.
    pose proof (occurs_at_bound _ _ _ Hne Hp) as Hb.
    simpl in Hb.
    destruct p as [|[|p]]; [vm_compute in Hp | vm_compute in Hp | lia];
      discriminate.
  - split; [exact H1 | apply H2; reflexivity].
Defined.

Lemma heuristic_fuzz_ccsds_witness :
  exists out g' v1 v2 v3 v4,
    heuristic_fuzz [0x1A; 0xCF; 0xFC; 0; 0; 0; 0; 0; 0; 0] (Bytes [0; 0; 0]) 5
    = Ok (out, g')
    /\ length out = 10%nat
    /\ take 5 out = [0x1A; v1; v2; v3; v4]
    /\ 1 <= v1 <= 255 /\ 0 <= v2 <= 7 /\ 1 <= v3 <= 10 /\ (v4 = 1 \/ v4 = 0)
    /\ drop 5 out = [255; 255; 255; 255; 0]
    /\ check_protocol out = None.
Proof.
  apply (heuristic_fuzz_ccsds [0x1A; 0xCF; 0xFC; 0; 0; 0; 0; 0; 0; 0]
           [0x1A; 0xCF; 0xFC; 255; 255; 255; 255; 255; 255; 0]);
    reflexivity.
Defined.

End FuzzMore.

(* ===================================================================== *)
(** ** More on the pattern miner                                          *)
(* ===================================================================== *)

Module MinerMore.

Import MinerSpec.

Local Open Scope nat_scope.

Lemma occurs_at_head (data s : list Z) (x : Z) p :
  occurs_at data (x :: s) p -> data !! p = Some x.
Proof.
  unfold occurs_at. intros Hocc.
  replace p with (p + 0) by lia. rewrite <- lookup_drop.
  destruct (drop p data) as [|y l]; [discriminate |].
  simpl in Hocc. by injection Hocc as -> _.
Qed.

Lemma lookup_occurs_at (data : list Z) (x : Z) p :
  data !! p = Some x -> occurs_at data [x] p.
Proof.
  unfold occurs_at. intros Hp.
  replace p with (p + 0) in Hp by lia. rewrite <- lookup_drop in Hp.
  destruct (drop p data) as [|y l]; [discriminate |].
  injection Hp as ->. reflexivity.
Qed.

(** X6. The common value that the miner returns is at most half as long
    as the buffer. *)
Theorem build_common_values_half (data : list Z) :
  2 * common_len (build_common_values_from_file data) <= length data.
Proof.
  destruct (build_holds_best data)
    as [[-> _] | (L & st & _ & Hen & Ha & -> & _)]; simpl; [lia |].
  pose proof Hen as [HL Hst].
  rewrite slice_length by lia.
  apply accepted_repeats_apart in Ha; [| done].
  destruct Ha as (p & q & Hpq & _ & Hq).
  apply occurs_at_bound in Hq.
  - rewrite slice_length in Hpq, Hq by lia. lia.
  - intros Hnil. apply (f_equal length) in Hnil.
    rewrite slice_length in Hnil by lia. simpl in Hnil. lia.
Qed.

(** X7. The miner finds nothing, and returns its initial [""], exactly
    when no byte value occurs twice in the buffer. *)
Theorem build_common_values_empty_iff (data : list Z) :
  build_common_values_from_file data = EmptyStr <-> NoDup data.
Proof.
  split.
  - intros Hemp. apply NoDup_alt.
    assert (Hlt : forall i j x, i < j -> data !! i = Some x ->
                                data !! j = Some x -> False).
    { intros i j x Hij Hi Hj.
      assert (Hrep : repeats_apart data [x]).
      { exists i, j. split; [simpl; lia |].
        split; by apply lookup_occurs_at. }
      destruct (repeats_apart_accepted data [x] i)
        as (st & _ & Hen & _ & Ha);
        [discriminate | done | by apply lookup_occurs_at |].
      destruct (build_holds_best data)
        as [[_ Hnone] | (L & st' & _ & _ & _ & Hres & _)].
      - by apply (Hnone _ _ Hen).
      - congruence. }
    intros i j x Hi Hj.
    destruct (Nat.lt_trichotomy i j) as [Hij | [-> | Hji]]; [| done |].
    + exfalso. by apply (Hlt i j x).
    + exfalso. by apply (Hlt j i x).
  - intros Hnd.
    destruct (build_holds_best data)
      as [[-> _] | (L & st & _ & Hen & Ha & _)]; [done |].
    exfalso. pose proof Hen as [HL Hst].
    apply accepted_repeats_apart in Ha; [| done].
    destruct Ha as (p & q & Hpq & Hp & Hq).
    rewrite slice_length in Hpq by lia.
    assert (Hs : exists x s, slice data st (st + L) = x :: s).
    { destruct (slice data st (st + L)) as [|x s] eqn:E; [| eauto].
      apply (f_equal length) in E.
      rewrite slice_length in E by lia. simpl in E. lia. }
    destruct Hs as (x & s & Hs). rewrite Hs in Hp, Hq.
    apply occurs_at_head in Hp, Hq.
    pose proof (proj1 (NoDup_alt data) Hnd p q x Hp Hq). lia.
Qed.

End MinerMore.

(* ===================================================================== *)
(** ** Facts about text                                                   *)
(* ===================================================================== *)

Module TextFacts.

Import SignalGeneration.

(** *** UTF-8: what [encode] produces, [decode] reads back *)

Lemma decode_1 (b0 : Z) (r : list Z) :
  in_range 0 127 b0 = true ->
  utf8_decode (b0 :: r) = cons b0 <$> utf8_decode r.
Proof. intros H. simpl. by rewrite H. Qed.

Lemma decode_2 (b0 b1 : Z) (r : list Z) :
  in_range 0 127 b0 = false -> in_range 194 223 b0 = true ->
  is_cont b1 = true ->
  utf8_decode (b0 :: b1 :: r)
  = cons ((b0 - 192) * 64 + (b1 - 128)) <$> utf8_decode r.
Proof. intros H0 H1 H2. simpl. by rewrite H0, H1, H2. Qed.

Lemma decode_3 (b0 b1 b2 : Z) (r : list Z) :
  in_range 0 127 b0 = false -> in_range 194 223 b0 = false ->
  in_range 224 239 b0 = true ->
  in_range (if b0 =? 224 then 160 else 128)
           (if b0 =? 237 then 159 else 191) b1 = true ->
  is_cont b2 = true ->
  utf8_decode (b0 :: b1 :: b2 :: r)
  = cons ((b0 - 224) * 4096 + (b1 - 128) * 64 + (b2 - 128))
      <$> utf8_decode r.
Proof. intros H0 H1 H2 H3 H4. simpl. by rewrite H0, H1, H2, H3, H4. Qed.

Lemma decode_4 (b0 b1 b2 b3 : Z) (r : list Z) :
  in_range 0 127 b0 = false -> in_range 194 223 b0 = false ->
  in_range 224 239 b0 = false ->
  in_range 240 244 b0 = true ->
  in_range (if b0 =? 240 then 144 else 128)
           (if b0 =? 244 then 143 else 191) b1 = true ->
  is_cont b2 = true -> is_cont b3 = true ->
  utf8_decode (b0 :: b1 :: b2 :: b3 :: r)
  = cons ((b0 - 240) * 262144 + (b1 - 128) * 4096
          + (b2 - 128) * 64 + (b3 - 128)) <$> utf8_decode r.
Proof.
  intros H0 H1 H2 H3 H4 H5 H6. simpl.
  by rewrite H0, H1, H2, H3, H4, H5, H6.
Qed.

Lemma in_range_true lo hi b : lo <= b <= hi -> in_range lo hi b = true.
Proof. intros H. unfold in_range. apply andb_true_iff. lia. Qed.

Lemma in_range_false lo hi b : b < lo \/ hi < b -> in_range lo hi b = false.
Proof. intros H. unfold in_range. apply andb_false_iff. lia. Qed.

Lemma is_cont_true b : 128 <= b <= 191 -> is_cont b = true.
Proof. intros H. unfold is_cont. apply andb_true_iff. lia. Qed.

(** One code point, followed by bytes that decode. *)
Lemma decode_encoded_cp (c : Z) (bc r : list Z) (s : list Z) :
  utf8_encode_cp c = Some bc -> utf8_decode r = Some s ->
  utf8_decode (bc ++ r) = Some (c :: s).
Proof.
  unfold utf8_encode_cp. intros Henc Hr.
  destruct (c <? 0) eqn:E0; [discriminate |]. apply Z.ltb_ge in E0.
  destruct (c <? 128) eqn:E1.
  { apply Z.ltb_lt in E1. injection Henc as <-. simpl app.
    rewrite decode_1 by (apply in_range_true; lia). by rewrite Hr. }
  apply Z.ltb_ge in E1.
  destruct (c <? 2048) eqn:E2.
  { apply Z.ltb_lt in E2. injection Henc as <-. simpl app.
    pose proof (Z.div_mod c 64 ltac:(lia)).
    pose proof (Z.mod_pos_bound c 64 ltac:(lia)).
    assert (2 <= c / 64 <= 31) by lia.
    rewrite decode_2;
      [| apply in_range_false; lia | apply in_range_true; lia
       | apply is_cont_true; lia].
    rewrite Hr. simpl. do 2 f_equal. lia. }
  apply Z.ltb_ge in E2.
  pose proof (Z.div_mod c 64 ltac:(lia)) as D1.
  pose proof (Z.mod_pos_bound c 64 ltac:(lia)) as M1.
  pose proof (Z.div_mod (c / 64) 64 ltac:(lia)) as D2.
  pose proof (Z.mod_pos_bound (c / 64) 64 ltac:(lia)) as M2.
  assert (Q2 : c / 4096 = c / 64 / 64)
    by (rewrite Z.div_div by lia; reflexivity).
  destruct (c <? 65536) eqn:E3.
  { apply Z.ltb_lt in E3.
    destruct (in_range 55296 57343 c) eqn:Es; [discriminate |].
    injection Henc as <-. simpl app.
    unfold in_range in Es. apply andb_false_iff in Es.
    rewrite Z.leb_gt, Z.leb_gt in Es.
    assert (0 <= c / 4096 <= 15) by lia.
    rewrite decode_3;
      [| apply in_range_false; lia | apply in_range_false; lia
       | apply in_range_true; lia | | apply is_cont_true; lia].
    - rewrite Hr. simpl. do 2 f_equal. lia.
    - apply in_range_true.
      destruct (224 + c / 4096 =? 224) eqn:Ea;
        destruct (224 + c / 4096 =? 237) eqn:Eb;
        rewrite ?Z.eqb_eq, ?Z.eqb_neq in Ea, Eb; lia. }
  apply Z.ltb_ge in E3.
  destruct (c <? 1114112) eqn:E4; [| discriminate].
  apply Z.ltb_lt in E4. injection Henc as <-. simpl app.
  pose proof (Z.div_mod (c / 4096) 64 ltac:(lia)) as D3.
  pose proof (Z.mod_pos_bound (c / 4096) 64 ltac:(lia)) as M3.
  assert (Q3 : c / 262144 = c / 4096 / 64)
    by (rewrite Z.div_div by lia; reflexivity).
  assert (0 <= c / 262144 <= 4) by lia.
  rewrite decode_4;
    [| apply in_range_false; lia | apply in_range_false; lia
     | apply in_range_false; lia | apply in_range_true; lia
     | | apply is_cont_true; lia | apply is_cont_true; lia].
  - rewrite Hr. simpl. do 2 f_equal. lia.
  - apply in_range_true.
    destruct (240 + c / 262144 =? 240) eqn:Ea;
      destruct (240 + c / 262144 =? 244) eqn:Eb;
      rewrite ?Z.eqb_eq, ?Z.eqb_neq in Ea, Eb; lia.
Qed.

(** The round trip of [encode] and [decode]. *)
Lemma decode_encode (s : list Z) (b : list Z) :
  encode s = Ok b -> decode b = Ok s.
Proof.
  unfold encode, decode.
  destruct (utf8_encode s) as [b'|] eqn:E; [| discriminate].
  intros [= <-].
  enough (H : utf8_decode b' = Some s) by (by rewrite H).
  revert b' E. induction s as [|c s IH]; intros b' E; simpl in E.
  - by injection E as <-.
  - destruct (utf8_encode_cp c) as [bc|] eqn:Ec; [| discriminate].
    destruct (utf8_encode s) as [br|] eqn:Er; [| discriminate].
    injection E as <-. apply decode_encoded_cp; [done | by apply IH].
Qed.

End TextFacts.

Module StripFacts.

Import SignalGeneration Terms.

Lemma lstrip_length (s : list Z) : (length (lstrip s) <= length s)%nat.
Proof.
  induction s as [|c s IH]; simpl; [lia |].
  destruct (isspace c); simpl; lia.
Qed.

Lemma lstrip_fixed (s : list Z) :
  length (lstrip s) = length s -> lstrip s = s.
Proof.
  destruct s as [|c s]; simpl; [done |].
  destruct (isspace c); [| done].
  pose proof (lstrip_length s). lia.
Qed.

(** A text that [strip] leaves alone has no white space at either end. *)
Lemma strip_fixed (s : list Z) :
  strip s = s -> lstrip s = s /\ lstrip (rev s) = rev s.
Proof.
  unfold strip. intros H.
  pose proof (lstrip_length s) as H1.
  pose proof (lstrip_length (rev (lstrip s))) as H2.
  apply (f_equal length) in H as Hl.
  rewrite length_rev in Hl. rewrite length_rev in H2.
  assert (Hs : lstrip s = s). { apply lstrip_fixed. lia. }
  split; [done |]. rewrite Hs in Hl. apply lstrip_fixed.
  by rewrite length_rev.
Qed.

Lemma strip_of_fixed (s : list Z) :
  lstrip s = s -> lstrip (rev s) = rev s -> strip s = s.
Proof. unfold strip. intros -> ->. apply rev_involutive. Qed.

Lemma lstrip_app (u t : list Z) :
  lstrip u = u -> u <> [] -> lstrip (u ++ t) = u ++ t.
Proof.
  destruct u as [|c u]; [done |]. simpl. intros H _.
  destruct (isspace c); [| done].
  pose proof (lstrip_length u). apply (f_equal length) in H.
  simpl in H. lia.
Qed.

(** White space around a text that has none at its ends is what [strip]
    removes. *)
Lemma lstrip_spaces (ws s : list Z) :
  Forall (fun c => isspace c = true) ws -> lstrip (ws ++ s) = lstrip s.
Proof.
  induction 1 as [|c ws Hc _ IH]; [done |]. simpl. by rewrite Hc.
Qed.

Lemma strip_padded (ws1 ws2 s : list Z) :
  Forall (fun c => isspace c = true) ws1 ->
  Forall (fun c => isspace c = true) ws2 ->
  strip s = s -> strip (ws1 ++ s ++ ws2) = s.
Proof.
  intros H1 H2 [Hl Hr]%strip_fixed. unfold strip.
  rewrite lstrip_spaces by done.
  destruct s as [|c s].
  - simpl. rewrite <- (app_nil_r ws2). by rewrite lstrip_spaces.
  - rewrite lstrip_app by done.
    rewrite rev_app_distr.
    rewrite lstrip_spaces by (by apply Forall_rev).
    rewrite Hr. apply rev_involutive.
Qed.

Lemma ascii_space_isspace (c : Z) : ascii_space c -> isspace c = true.
Proof.
  unfold ascii_space, isspace. intros [H | ->]; [| reflexivity].
  assert (in_range 9 13 c = true) as ->; [| reflexivity].
  unfold in_range. apply andb_true_iff. lia.
Qed.

(** ASCII text is its own UTF-8. *)
Lemma decode_ascii (s : list Z) :
  Forall (fun c => 0 <= c <= 127) s -> decode s = Ok s.
Proof.
  intros H. unfold decode.
  enough (Hd : utf8_decode s = Some s) by (by rewrite Hd).
  induction H as [|c s Hc _ IH]; [done |].
  rewrite TextFacts.decode_1 by (by apply TextFacts.in_range_true).
  by rewrite IH.
Qed.

(** *** [split] *)

Lemma split_on_absent (sep : Z) (u : list Z) :
  sep ∉ u -> split_on sep u = [u].
Proof.
  induction u as [|c u IH]; [done |].
  intros [Hc Hu]%not_elem_of_cons. simpl.
  rewrite (proj2 (Z.eqb_neq c sep)) by done. by rewrite IH.
Qed.

Lemma split_on_app (sep : Z) (u t : list Z) :
  sep ∉ u -> split_on sep (u ++ sep :: t) = u :: split_on sep t.
Proof.
  induction u as [|c u IH]; intros Hu; simpl.
  - by rewrite Z.eqb_refl.
  - apply not_elem_of_cons in Hu as [Hc Hu].
    rewrite (proj2 (Z.eqb_neq c sep)) by done. by rewrite IH.
Qed.

Lemma split_on_last (sep : Z) (pre item : list Z) :
  sep ∉ item ->
  exists piece items,
    split_on sep (pre ++ sep :: item) = (piece :: items) ++ [item].
Proof.
  intros Hi. induction pre as [|c pre (piece & items & IH)]; simpl.
  - rewrite Z.eqb_refl. exists [], []. by rewrite split_on_absent.
  - rewrite IH. destruct (c =? sep); simpl.
    + by exists [], (piece :: items).
    + by exists (c :: piece), items.
Qed.

(** A text splits into one piece more than it has separators. *)
Lemma split_on_length (sep : Z) (s : list Z) :
  length (split_on sep s) = S (length (filter (fun c => c = sep) s)).
Proof.
  induction s as [|c s IH]; [done |]. simpl.
  destruct (Z.eqb_spec c sep) as [-> | Hne].
  - rewrite filter_cons_True by done. simpl. by rewrite IH.
  - rewrite filter_cons_False by done.
    destruct (split_on sep s); simpl in *; [lia | done].
Qed.

End StripFacts.

(* ===================================================================== *)
(** ** The parameter message of the signal generator                      *)
(* ===================================================================== *)

Module GeneratorSpec.

Import SignalGeneration Terms StripFacts.

Lemma store_item_cases (item : list Z) (params : gmap (list Z) (list Z)) :
  (equals_count item = 1%nat
   /\ exists key value,
       split_on 61 item = [key; value]
       /\ store_item item params = Ok (<[strip key := strip value]> params))
  \/ (equals_count item <> 1%nat /\ store_item item params = Raise ValueError).
Proof.
  unfold store_item, equals_count.
  pose proof (split_on_length 61 item) as Hlen.
  destruct (split_on 61 item) as [|key [|value [|third more]]];
    simpl in Hlen.
  - lia.
  - right. split; [lia | done].
  - left. split; [lia |]. by exists key, value.
  - right. split; [lia | done].
Qed.

Lemma store_items_returns (items : list (list Z)) :
  forall params,
    (Forall (fun item => equals_count item = 1%nat) items ->
     exists params', store_items items params = Ok params')
    /\ (~ Forall (fun item => equals_count item = 1%nat) items ->
        store_items items params = Raise ValueError).
Proof.
  induction items as [|item items IH]; intros params; simpl.
  - split; [eauto |]. intros H. by destruct H.
  - destruct (store_item_cases item params)
      as [(Hone & key & value & _ & ->) | (Hbad & ->)]; simpl.
    + destruct (IH (<[strip key := strip value]> params)) as [IH1 IH2].
      split.
      * intros Hall. apply IH1. by inversion Hall.
      * intros Hnot. apply IH2. intros Hall. apply Hnot. by constructor.
    + split; [| done]. intros Hall. by inversion Hall.
Qed.

Lemma store_items_app (l1 l2 : list (list Z)) :
  forall params,
    store_items (l1 ++ l2) params
    = (let* params' := store_items l1 params in store_items l2 params').
Proof.
  induction l1 as [|item l1 IH]; intros params; simpl; [done |].
  destruct (store_item item params); simpl; [apply IH | done].
Qed.

(** X9. For a payload that is UTF-8, [receive_signal_params] returns
    exactly when every item between the [;] of the stripped text holds
    exactly one [=]; otherwise, as for an empty message or one that ends
    in [;], it raises [ValueError]. *)
Theorem receive_signal_params_returns (sent text : list Z) :
  decode (take 1024 sent) = Ok text ->
  (Forall (fun item => equals_count item = 1%nat) (split_on 59 (strip text))
   -> exists params, receive_signal_params sent = Ok params)
  /\ (~ Forall (fun item => equals_count item = 1%nat)
        (split_on 59 (strip text))
      -> receive_signal_params sent = Raise ValueError).
Proof.
  intros Hd. unfold receive_signal_params. rewrite Hd. simpl.
  apply store_items_returns.
Qed.

(** X10. The last pair of the message always takes effect: whatever
    stands before its [;], when [receive_signal_params] returns, the
    stripped key of the last pair is bound to its stripped value. *)
Theorem last_pair_wins (sent text pre key value : list Z)
        (params : gmap (list Z) (list Z)) :
  decode (take 1024 sent) = Ok text ->
  strip text = pre ++ [59] ++ key ++ [61] ++ value ->
  59 ∉ key -> 61 ∉ key -> 59 ∉ value -> 61 ∉ value ->
  receive_signal_params sent = Ok params ->
  params !! strip key = Some (strip value).
Proof.
  intros Hd Hs Hk1 Hk2 Hv1 Hv2. unfold receive_signal_params.
  rewrite Hd. simpl.
  assert (Hs' : strip text = pre ++ 59 :: (key ++ 61 :: value)) by exact Hs.
  rewrite Hs'.
  destruct (split_on_last 59 pre (key ++ 61 :: value))
    as (piece & items & ->).
  { intros [H | H]%elem_of_app; [done |].
    apply elem_of_cons in H as [H | H]; [discriminate | done]. }
  rewrite store_items_app.
  destruct (store_items (piece :: items) ∅) as [m | e]; [| discriminate].
  simpl. unfold store_item.
  rewrite (split_on_app 61 key value) by done.
  rewrite split_on_absent by done.
  intros [= <-]. apply lookup_insert_eq.
Qed.

Lemma message_items (k1 k2 k3 F P B : list Z) :
  59 ∉ k1 -> 59 ∉ k2 -> 59 ∉ k3 -> 59 ∉ F -> 59 ∉ P -> 59 ∉ B ->
  split_on 59 (k1 ++ F ++ 59 :: k2 ++ P ++ 59 :: k3 ++ B)
  = [k1 ++ F; k2 ++ P; k3 ++ B].
Proof.
  intros H1 H2 H3 HF HP HB.
  assert (Happ : forall u v : list Z, 59 ∉ u -> 59 ∉ v -> 59 ∉ u ++ v)
    by (intros u v Hu Hv [H | H]%elem_of_app; done).
  rewrite (app_assoc k1 F), split_on_app by auto.
  rewrite (app_assoc k2 P), split_on_app by auto.
  by rewrite split_on_absent by auto.
Qed.

Lemma pair_split (key value : list Z) :
  61 ∉ key -> 61 ∉ value -> split_on 61 (key ++ 61 :: value) = [key; value].
Proof.
  intros Hk Hv. rewrite split_on_app by done. by rewrite split_on_absent.
Qed.

(** X8. What [send_signal_params_to_generation] sends,
    [receive_signal_params] reads back: for three values without [;],
    without [=] and without surrounding white space, whose message fits
    the 1024 bytes of [recv], the receiver returns the dictionary that
    binds freq, power and bandwidth to these values, and the main block
    hands the three values to the flowgraph. *)
Theorem parameters_round_trip (listening : Z -> bool)
        (F P B : list Z) (events : list SatTest.net_event) :
  SatTest.send_signal_params_to_generation listening F P B = (events, Ok tt) ->
  plain F -> plain P -> plain B ->
  exists payload,
    events = [SatTest.Connect (lit "127.0.0.1") 6789;
              SatTest.Send payload; SatTest.Close]
    /\ ((length payload <= 1024)%nat ->
        exists params,
          receive_signal_params payload = Ok params
          /\ params = <[lit "bandwidth" := B]>
                        (<[lit "power" := P]> (<[lit "freq" := F]> ∅))
          /\ settings params = (F, P, B)).
Proof.
  unfold SatTest.send_signal_params_to_generation.
  intros Hsend (HFs & HF1 & HF2) (HPs & HP1 & HP2) (HBs & HB1 & HB2).
  destruct (listening 6789); [| discriminate].
  destruct (encode _) as [payload | e] eqn:Henc; [| discriminate].
  injection Hsend as <-. exists payload. split; [done |]. intros Hlen.
  apply TextFacts.decode_encode in Henc.
  unfold receive_signal_params. rewrite take_ge by lia. rewrite Henc.
  unfold Py.bind at 1.
  assert (Hstrip : strip (lit "freq=" ++ F ++ lit ";power=" ++ P
                          ++ lit ";bandwidth=" ++ B)
                   = lit "freq=" ++ F ++ lit ";power=" ++ P
                     ++ lit ";bandwidth=" ++ B).
  { apply strip_of_fixed; [done |].
    rewrite !app_assoc. rewrite rev_app_distr.
    apply strip_fixed in HBs as [_ HBr].
    destruct B as [|c B'].
    - rewrite !rev_app_distr. reflexivity.
    - apply lstrip_app; [done |].
      intros Hnil. apply (f_equal length) in Hnil.
      rewrite length_rev in Hnil. discriminate. }
  rewrite Hstrip.
  change (lit "freq=" ++ F ++ lit ";power=" ++ P ++ lit ";bandwidth=" ++ B)
    with (lit "freq=" ++ F ++ 59 :: lit "power=" ++ P
          ++ 59 :: lit "bandwidth=" ++ B).
  rewrite message_items by (done || by apply (bool_decide_unpack _)).
  cbn [store_items]. unfold store_item.
  change (lit "freq=" ++ F) with (lit "freq" ++ 61 :: F).
  change (lit "power=" ++ P) with (lit "power" ++ 61 :: P).
  change (lit "bandwidth=" ++ B) with (lit "bandwidth" ++ 61 :: B).
  rewrite !pair_split by (done || by apply (bool_decide_unpack _)).
  unfold Py.bind. rewrite HFs, HPs, HBs.
  change (strip (lit "freq")) with (lit "freq").
  change (strip (lit "power")) with (lit "power").
  change (strip (lit "bandwidth")) with (lit "bandwidth").
  eexists. split; [done |]. split; [done |].
  unfold settings, get.
  rewrite lookup_insert_ne by discriminate.
  rewrite lookup_insert_ne by discriminate.
  rewrite lookup_insert_eq.
  rewrite (lookup_insert_ne _ (lit "bandwidth") (lit "power")) by discriminate.
  rewrite lookup_insert_eq. rewrite lookup_insert_eq. done.
Qed.

Lemma receive_signal_params_returns_witness :
  (exists params, receive_signal_params (lit "freq=1;power=2") = Ok params)
  /\ receive_signal_params (lit "freq=1;") = Raise ValueError.
Proof.
  destruct (receive_signal_params_returns
              (lit "freq=1;power=2") (lit "freq=1;power=2") eq_refl)
    as [Hok _].
  destruct (receive_signal_params_returns
              (lit "freq=1;") (lit "freq=1;") eq_refl) as [_ Hbad].
  split.
  - apply Hok. repeat constructor.
  - apply Hbad. intros Hall.
    pose proof (Forall_lookup_1 _ _ 1%nat [] Hall eq_refl) as H.
    discriminate H.
Defined.

Lemma last_pair_wins_witness :
  (<[lit "freq" := lit "2"]> (<[lit "freq" := lit "1"]> ∅)
   : gmap (list Z) (list Z)) !! strip (lit "freq") = Some (strip (lit "2")).
Proof.
  apply (last_pair_wins (lit "freq=1;freq=2") (lit "freq=1;freq=2")
           (lit "freq=1") (lit "freq") (lit "2"));
    try reflexivity; by apply (bool_decide_unpack _).
Defined.

Lemma parameters_round_trip_witness :
  exists payload,
    [SatTest.Connect (lit "127.0.0.1") 6789;
     SatTest.Send (lit "freq=2.4G;power=30;bandwidth=10M");
     SatTest.Close]
    = [SatTest.Connect (lit "127.0.0.1") 6789;
       SatTest.Send payload; SatTest.Close]
    /\ ((length payload <= 1024)%nat ->
        exists params,
          receive_signal_params payload = Ok params
          /\ params = <[lit "bandwidth" := lit "10M"]>
                        (<[lit "power" := lit "30"]>
                           (<[lit "freq" := lit "2.4G"]> ∅))
          /\ settings params = (lit "2.4G", lit "30", lit "10M")).
Proof.
  apply (parameters_round_trip (fun _ => true)
           (lit "2.4G") (lit "30") (lit "10M"));
    [reflexivity | | |];
    (split; [reflexivity | split; by apply (bool_decide_unpack _)]).
Defined.

End GeneratorSpec.

(* ===================================================================== *)
(** ** More on the recorder                                               *)
(* ===================================================================== *)

Module RecorderMore.

Import Recording Terms StripFacts.

(** What [disconnect] keeps of the connected sinks. *)
Lemma elem_of_others (l : list file_sink_block) (sink s : file_sink_block) :
  s ∈ List.filter (fun s => bool_decide (s <> sink)) l <-> s ∈ l /\ s <> sink.
Proof.
  rewrite !list_elem_of_In, filter_In.
  by rewrite bool_decide_eq_true.
Qed.

Lemma others_all (l : list file_sink_block) (sink : file_sink_block) :
  sink ∉ l -> List.filter (fun s => bool_decide (s <> sink)) l = l.
Proof.
  induction l as [|s l IH]; [done |].
  intros [Hs Hl]%not_elem_of_cons. simpl.
  rewrite bool_decide_eq_true_2 by done. by rewrite IH.
Qed.

Lemma others_NoDup (l : list file_sink_block) (sink : file_sink_block) :
  NoDup l -> NoDup (List.filter (fun s => bool_decide (s <> sink)) l).
Proof.
  induction 1 as [|s l Hs Hl IH]; simpl; [constructor |].
  case_bool_decide; [| done].
  constructor; [| done]. rewrite elem_of_others. tauto.
Qed.

Lemma start_recording_well_formed (self : SignalRecorder) :
  well_formed self -> well_formed (start_recording self).
Proof.
  intros (Hheld & Hids & Hnd). unfold start_recording.
  split; [| split]; simpl.
  - intros s [= <-]. apply elem_of_app. right. by apply list_elem_of_singleton.
  - intros s [Hs | ->%list_elem_of_singleton]%elem_of_app; simpl.
    + apply Hids in Hs. lia.
    + lia.
  - apply NoDup_app. split; [done |]. split; [| apply NoDup_singleton].
    intros s Hs ->%list_elem_of_singleton. apply Hids in Hs. simpl in Hs. lia.
Qed.

Lemma stop_recording_well_formed (self : SignalRecorder) :
  well_formed self -> well_formed (stop_recording self).
Proof.
  intros (Hheld & Hids & Hnd). unfold stop_recording.
  destruct (file_sink self) as [sink|] eqn:E; [| by rewrite <- E in Hheld].
  split; [| split]; simpl.
  - discriminate.
  - intros s [Hs _]%elem_of_others. by apply Hids.
  - by apply others_NoDup.
Qed.

Lemma serve_inv (conn : connection) (w w' : world) :
  serve conn w = Ok w' ->
  exists text,
    utf8_decode (recv conn) = Some text
    /\ closed w' = closed w ++ [conn_id conn]
    /\ recorder w'
       = if bool_decide (strip text = lit "START")
         then start_recording (recorder w)
         else if bool_decide (strip text = lit "STOP")
              then stop_recording (recorder w)
              else recorder w.
Proof.
  unfold serve, decode.
  destruct (utf8_decode (recv conn)) as [text|]; [| discriminate].
  simpl. intros [= <-]. by exists text.
Qed.

Lemma listen_for_commands_app (l1 l2 : list connection) :
  forall w,
    listen_for_commands (l1 ++ l2) w
    = (let* w' := listen_for_commands l1 w in listen_for_commands l2 w').
Proof.
  induction l1 as [|c l1 IH]; intros w; simpl; [done |].
  destruct (serve c w); simpl; [apply IH | done].
Qed.

(** An invariant of the loop, for any property of the recorder that
    [start_recording] and [stop_recording] keep. *)
Lemma listen_for_commands_keeps (P : SignalRecorder -> Prop) :
  (forall self, P self -> P (start_recording self)) ->
  (forall self, P self -> P (stop_recording self)) ->
  forall incoming w w',
    P (recorder w) -> listen_for_commands incoming w = Ok w' ->
    P (recorder w').
Proof.
  intros Hstart Hstop.
  induction incoming as [|c rest IH]; intros w w' Hw; simpl.
  - by intros [= <-].
  - intros (w1 & H1 & Hrest)%PyFacts.bind_Ok.
    apply (IH w1 w'); [| done].
    apply serve_inv in H1 as (text & _ & _ & ->).
    repeat case_bool_decide; auto.
Qed.

(** X11. The command loop keeps the recorder well formed: from a well
    formed recorder, after any commands, the sink that the recorder holds
    is connected, every connected sink was created by the recorder, and
    none is connected twice. *)
Theorem listen_for_commands_well_formed (incoming : list connection)
        (w w' : world) :
  well_formed (recorder w) ->
  listen_for_commands incoming w = Ok w' ->
  well_formed (recorder w').
Proof.
  apply (listen_for_commands_keeps well_formed).
  - apply start_recording_well_formed.
  - apply stop_recording_well_formed.
Qed.

(** X12. When the loop returns, it has closed every connection once, in
    the order of arrival, and the recorder records or not as a two-state
    switch that START turns on, STOP turns off and any other command
    leaves alone. *)
Theorem listen_for_commands_switch (incoming : list connection)
        (w w' : world) :
  listen_for_commands incoming w = Ok w' ->
  closed w' = closed w ++ (conn_id <$> incoming)
  /\ recording (recorder w')
     = fold_left switch (command_of <$> incoming) (recording (recorder w)).
Proof.
  revert w. induction incoming as [|c rest IH]; intros w; simpl.
  - intros [= <-]. by rewrite app_nil_r.
  - intros (w1 & H1 & Hrest)%PyFacts.bind_Ok.
    destruct (IH _ Hrest) as [Hc Hr]. rewrite Hc, Hr.
    apply serve_inv in H1 as (text & Hd & -> & ->).
    split; [by rewrite <- app_assoc |]. f_equal.
    unfold switch, command_of. rewrite Hd. simpl.
    destruct (decide (strip text = lit "START")) as [-> | Hne1].
    { rewrite !bool_decide_eq_true_2 by done. done. }
    rewrite (bool_decide_eq_false_2 (strip text = lit "START")) by done.
    rewrite (bool_decide_eq_false_2 (Some (strip text) = Some (lit "START")))
      by congruence.
    destruct (decide (strip text = lit "STOP")) as [-> | Hne2].
    { rewrite !bool_decide_eq_true_2 by done.
      apply RecorderSpec.stop_recording_recording. }
    rewrite (bool_decide_eq_false_2 (strip text = lit "STOP")) by done.
    rewrite (bool_decide_eq_false_2 (Some (strip text) = Some (lit "STOP")))
      by congruence.
    done.
Qed.

(** X13. A START that follows a START orphans the sink of the first:
    whatever commands come later, that sink is never disconnected. *)
Theorem first_sink_stays_connected (self : SignalRecorder)
        (closed0 : list nat) (incoming : list connection) (w' : world) :
  listen_for_commands incoming
    {| recorder := start_recording (start_recording self);
       closed := closed0 |} = Ok w' ->
  {| sink_id := created self; sink_file := lit "recorded_signal.dat";
     sink_unbuffered := true |} ∈ connected (recorder w').
Proof.
  set (orphan := {| sink_id := created self;
                    sink_file := lit "recorded_signal.dat";
                    sink_unbuffered := true |}).
  intros Hrun.
  enough (H : orphan ∈ connected (recorder w')
              /\ (created self < created (recorder w'))%nat
              /\ forall s, file_sink (recorder w') = Some s ->
                           (created self < sink_id s)%nat) by apply H.
  revert Hrun.
  apply (listen_for_commands_keeps
           (fun r => orphan ∈ connected r
                     /\ (created self < created r)%nat
                     /\ forall s, file_sink r = Some s ->
                                  (created self < sink_id s)%nat)).
  - intros r (Hin & Hc & Hf). simpl. split; [| split].
    + apply elem_of_app. by left.
    + lia.
    + intros s [= <-]. simpl. lia.
  - intros r (Hin & Hc & Hf). unfold stop_recording.
    destruct (file_sink r) as [sink|] eqn:E; [| by rewrite E].
    simpl. split; [| split; [done | discriminate]].
    apply elem_of_others. split; [done |].
    intros <-. specialize (Hf _ eq_refl). simpl in Hf. lia.
  - simpl. split; [| split].
    + apply elem_of_app. left. apply elem_of_app. right.
      by apply list_elem_of_singleton.
    + lia.
    + intros s [= <-]. simpl. lia.
Qed.

(** X14. On a well formed recorder, START followed by STOP leaves the
    connections as they were, with no sink held. *)
Theorem start_then_stop_restores (self : SignalRecorder) :
  well_formed self ->
  connected (stop_recording (start_recording self)) = connected self
  /\ file_sink (stop_recording (start_recording self)) = None.
Proof.
  intros (_ & Hids & _). unfold stop_recording. simpl. split; [| done].
  rewrite List.filter_app. simpl.
  rewrite bool_decide_eq_false_2 by (by intros H).
  rewrite app_nil_r. apply others_all.
  intros Hin. apply Hids in Hin. simpl in Hin. lia.
Qed.

(** X15. A payload that is not UTF-8 ends the loop: the connections that
    arrive after it are never served. *)
Theorem undecodable_payload_ends_loop (before after : list connection)
        (bad : connection) (w w1 : world) :
  listen_for_commands before w = Ok w1 ->
  utf8_decode (recv bad) = None ->
  listen_for_commands (before ++ bad :: after) w = Raise UnicodeDecodeError.
Proof.
  intros Hbefore Hbad. rewrite listen_for_commands_app, Hbefore. simpl.
  unfold serve, decode. by rewrite Hbad.
Qed.

(** X16. ASCII white space around START or STOP (a trailing newline, for
    one) does not matter, as long as the payload fits the 1024 bytes of
    [recv]. *)
Theorem padded_command (conn : connection) (w : world)
        (ws1 ws2 : list Z) (start : bool) :
  Forall ascii_space ws1 -> Forall ascii_space ws2 ->
  sent conn = ws1 ++ (if start then lit "START" else lit "STOP") ++ ws2 ->
  (length (sent conn) <= 1024)%nat ->
  serve conn w
  = Ok {| recorder := if start then start_recording (recorder w)
                      else stop_recording (recorder w);
          closed := closed w ++ [conn_id conn] |}.
Proof.
  intros H1 H2 Hsent Hlen. unfold serve, recv.
  rewrite take_ge by lia. rewrite Hsent.
  rewrite decode_ascii.
  - simpl Py.bind.
    rewrite strip_padded;
      [| eapply Forall_impl; [exact H1 | apply ascii_space_isspace]
       | eapply Forall_impl; [exact H2 | apply ascii_space_isspace]
       | by destruct start].
    by destruct start.
  - rewrite !Forall_app. split; [| split].
    + eapply Forall_impl; [exact H1 |]. unfold ascii_space. intros c Hc. lia.
    + destruct start; by apply (bool_decide_unpack _).
    + eapply Forall_impl; [exact H2 |]. unfold ascii_space. intros c Hc. lia.
Qed.

Lemma fresh_well_formed : well_formed (recorder fresh).
Proof.
  split; [| split]; simpl.
  - discriminate.
  - intros s Hs. by apply elem_of_nil in Hs.
  - constructor.
Qed.

Lemma listen_for_commands_well_formed_witness :
  well_formed (start_recording (recorder fresh)).
Proof.
  apply (listen_for_commands_well_formed
           [ {| conn_id := 1; sent := lit "START" |} ] fresh
           {| recorder := start_recording (recorder fresh);
              closed := [1%nat] |});
    [apply fresh_well_formed | reflexivity].
Defined.

Lemma listen_for_commands_switch_witness :
  [1%nat; 2%nat; 3%nat] = [] ++ [1%nat; 2%nat; 3%nat]
  /\ recording (start_recording (stop_recording (recorder fresh))) = true.
Proof.
  apply (listen_for_commands_switch
           [ {| conn_id := 1; sent := lit "STOP" |};
             {| conn_id := 2; sent := lit "START" |};
             {| conn_id := 3; sent := lit "status?" |} ] fresh
           {| recorder := start_recording (stop_recording (recorder fresh));
              closed := [1%nat; 2%nat; 3%nat] |}).
  reflexivity.
Defined.

Lemma first_sink_stays_connected_witness :
  {| sink_id := 0; sink_file := lit "recorded_signal.dat";
     sink_unbuffered := true |}
  ∈ [ {| sink_id := 0; sink_file := lit "recorded_signal.dat";
         sink_unbuffered := true |} ].
Proof.
  apply (first_sink_stays_connected (recorder fresh) []
           [ {| conn_id := 1; sent := lit "STOP" |} ]
           {| recorder :=
                stop_recording
                  (start_recording (start_recording (recorder fresh)));
              closed := [1%nat] |}).
  reflexivity.
Defined.

Lemma start_then_stop_restores_witness :
  connected (stop_recording (start_recording (recorder fresh))) = []
  /\ file_sink (stop_recording (start_recording (recorder fresh))) = None.
Proof.
  apply (start_then_stop_restores (recorder fresh)).
  apply fresh_well_formed.
Defined.

Lemma undecodable_payload_ends_loop_witness :
  listen_for_commands
    [ {| conn_id := 1; sent := lit "START" |};
      {| conn_id := 2; sent := [255] |};
      {| conn_id := 3; sent := lit "STOP" |} ] fresh
  = Raise UnicodeDecodeError.
Proof.
  apply (undecodable_payload_ends_loop
           [ {| conn_id := 1; sent := lit "START" |} ]
           [ {| conn_id := 3; sent := lit "STOP" |} ]
           {| conn_id := 2; sent := [255] |} fresh
           {| recorder := start_recording (recorder fresh);
              closed := [1%nat] |});
    reflexivity.
Defined.

Lemma padded_command_witness :
  serve {| conn_id := 1; sent := [32] ++ lit "START" ++ [13; 10] |} fresh
  = Ok {| recorder := start_recording (recorder fresh); closed := [1%nat] |}.
Proof.
  apply (padded_command {| conn_id := 1;
                           sent := [32] ++ lit "START" ++ [13; 10] |}
           fresh [32] [13; 10] true).
  - repeat (apply Forall_cons_2; [unfold ascii_space; lia |]).
    apply Forall_nil_2.
  - repeat (apply Forall_cons_2; [unfold ascii_space; lia |]).
    apply Forall_nil_2.
  - reflexivity.
  - simpl. lia.
Defined.

End RecorderMore.

(* ===================================================================== *)
(** ** The SignalReplay and SignalFuzzing branches                        *)
(* ===================================================================== *)

Module ModesSpec.

Import Recording Modes Terms.



(** [time.sleep] raises for every other length: [ValueError] for a length
    from -9223372036 to -1, [OverflowError] beyond 9223372036 either way. *)
Lemma sleep_rejects (secs : Z) :
  secs < 0 \/ 9223372036 < secs ->
  sleep secs = Some (if (-9223372036 <=? secs) && (secs <? 0)
                     then ValueError else OverflowError).
Proof.
  intros H. unfold sleep.
  destruct (Z.ltb_spec secs (-9223372036)), (Z.ltb_spec 9223372036 secs),
    (Z.leb_spec (-9223372036) secs), (Z.ltb_spec secs 0);
    simpl; first [done | lia].
Qed.


(** X18. A record time that [time.sleep] rejects, a negative one or one
    above 9223372036 seconds, makes it raise after START has been sent:
    SignalReplay ends in [ValueError] for a record time from -9223372036
    to -1 and in [OverflowError] for any other such time, STOP is never
    sent, and a recorder that serves what was sent is left recording. *)
Theorem replay_rejected_time (listening : Z -> bool)
        (communicate : list (list Z) -> list Z * list Z) (recordTime : Z) :
  listening 5678 = true -> recordTime < 0 \/ 9223372036 < recordTime ->
  SignalReplay listening communicate recordTime
  = ([Net (SatTest.Connect (lit "127.0.0.1") 5678);
      Net (SatTest.Send (lit "START")); Net SatTest.Close],
     Raise (if (-9223372036 <=? recordTime) && (recordTime <? 0)
            then ValueError else OverflowError))
  /\ forall (conns : list connection) (w : world),
       sent <$> conns
       = payloads (SignalReplay listening communicate recordTime).1 ->
       exists w', listen_for_commands conns w = Ok w'
                  /\ recording (recorder w') = true.
Proof.
  intros Hl Ht.
  assert (Hrun : SignalReplay listening communicate recordTime
                 = ([Net (SatTest.Connect (lit "127.0.0.1") 5678);
                     Net (SatTest.Send (lit "START")); Net SatTest.Close],
                    Raise (if (-9223372036 <=? recordTime) && (recordTime <? 0)
                           then ValueError else OverflowError))).
  { unfold SignalReplay, send_command_to_recording. rewrite Hl.
    change (encode (lit "START")) with (Ok (lit "START")).
    by rewrite (sleep_rejects recordTime) by done. }
  split; [exact Hrun |]. rewrite Hrun. intros conns w Hc.
  destruct conns as [|c1 [|c2 rest]]; try discriminate.
  injection Hc as Hc. simpl. unfold serve, recv. rewrite Hc. simpl.
  eexists. split; reflexivity.
Qed.

Section WithRandomSource.

Context `{RS : RandomSource G}.

(** X19. Whenever SignalFuzzing ends normally it has sent exactly one
    frame, to port 4567, as long as the received data cut to the 1024
    bytes of [recv]; with the random strategy and a listener on that port
    it always ends normally. *)
Theorem fuzzing_sends_one_frame (listening : Z -> bool) (sent : list Z)
        (g : G) :
  (forall fuzzing events,
      SignalFuzzing listening fuzzing sent g = (events, Ok tt) ->
      exists frame,
        events = [SatTest.Connect (lit "127.0.0.1") 4567;
                  SatTest.Send frame; SatTest.Close]
        /\ length frame = (length sent `min` 1024)%nat)
  /\ (listening 4567 = true ->
      exists events, SignalFuzzing listening random sent g = (events, Ok tt)).
Proof.
  split.
  - intros fuzzing events. unfold SignalFuzzing.
    destruct (match fuzzing with
              | random => SatTest.random_fuzz (take 1024 sent) g
              | heuristic =>
                  SatTest.heuristic_fuzz (take 1024 sent)
                    (SatTest.build_common_values_from_file (take 1024 sent)) g
              end) as [[frame g'] | e] eqn:E; [| discriminate].
    destruct (listening 4567); [| discriminate].
    intros [= <-]. exists frame. split; [done |].
    destruct fuzzing.
    + destruct (FuzzSpec.random_fuzz_length (take 1024 sent) g)
        as (out & g2 & Hr & Hlen).
      rewrite Hr in E. injection E as <- _.
      rewrite Hlen, length_take. lia.
    + apply FuzzSpec.heuristic_fuzz_length in E.
      rewrite E, length_take. lia.
  - intros Hl. unfold SignalFuzzing.
    destruct (FuzzSpec.random_fuzz_length (take 1024 sent) g)
      as (out & g2 & -> & _).
    rewrite Hl. eauto.
Qed.

End WithRandomSource.


Lemma replay_rejected_time_witness :
  SignalReplay (fun _ => true) (fun _ => ([], [])) (-1)
  = ([Net (SatTest.Connect (lit "127.0.0.1") 5678);
      Net (SatTest.Send (lit "START")); Net SatTest.Close],
     Raise ValueError)
  /\ SignalReplay (fun _ => true) (fun _ => ([], [])) 9223372037
     = ([Net (SatTest.Connect (lit "127.0.0.1") 5678);
         Net (SatTest.Send (lit "START")); Net SatTest.Close],
        Raise OverflowError).
Proof.
  split.
  - apply (replay_rejected_time (fun _ => true) (fun _ => ([], [])) (-1));
      [reflexivity | lia].
  - apply (replay_rejected_time (fun _ => true) (fun _ => ([], []))
             9223372037); [reflexivity | lia].
Defined.

End ModesSpec.

(* ===================================================================== *)
(** ** The choice of the demodulator                                      *)
(* ===================================================================== *)

Module DemodulatorSpec.

Import Demodulation.

(** X20. [get_demodulator] never raises on what [identify_modulation]
    returns: every signal gets a PSK demodulator with two samples per
    symbol, of 2 points when its length is even, of 4 points when its
    length is an odd multiple of 3, and of 8 points otherwise. *)
Theorem demodulator_for_every_signal {A} (signal : list A) :
  exists d,
    get_demodulator (identify_modulation signal) = Ok d
    /\ samples_per_symbol d = 2 /\ differential d = false
    /\ (constellation_points d = 2 <-> (2 | Z.of_nat (length signal)))
    /\ (constellation_points d = 4 <->
        ~ (2 | Z.of_nat (length signal)) /\ (3 | Z.of_nat (length signal)))
    /\ (constellation_points d = 8 <->
        ~ (2 | Z.of_nat (length signal)) /\ ~ (3 | Z.of_nat (length signal))).
Proof.
  unfold identify_modulation.
  set (n := Z.of_nat (length signal)).
  assert (H2 : (2 | n) <-> n mod 2 = 0)
    by (rewrite Z.mod_divide by lia; done).
  assert (H3 : (3 | n) <-> n mod 3 = 0)
    by (rewrite Z.mod_divide by lia; done).
  destruct (Z.eqb_spec (n mod 2) 0) as [E2 | E2].
  - eexists. split; [reflexivity |]. simpl.
    repeat split; try tauto; try discriminate; intros; tauto.
  - destruct (Z.eqb_spec (n mod 3) 0) as [E3 | E3].
    + eexists. split; [reflexivity |]. simpl.
      repeat split; try tauto; try discriminate; intros; tauto.
    + eexists. split; [reflexivity |]. simpl.
      repeat split; try tauto; try discriminate; intros; tauto.
Qed.

End DemodulatorSpec.
